(** * Sentiment engine and candidate aggregator of NPchecker

    A shallow embedding of [npcheckerapp/sentiment_utils.py]
    (class [EnhancedSentimentAnalyzer]) and of the aggregation code of
    [npcheckerapp/views.py] ([extract_keywords], [get_results]).

    Modelling conventions.
    - A Python [str] is a list of code points.  The embedding covers the
      code points below 256 (ASCII and Latin-1), carried by [ascii]; the
      classes [\w], [\s] and [str.lower] are those CPython uses for these
      code points.  Statements about all strings are statements about the
      strings of these code points; beyond them [str.lower] can change the
      length of a string (U+0130), which this embedding does not cover.
    - Python [int] is [Z].  A sentiment score is the decimal literal the
      source writes, a rational ([Q]).  Arithmetic on Python [float]s is
      IEEE 754 binary64 arithmetic, module [Binary64]: a finite value is the
      rational it denotes, every operation rounds the exact result to the
      nearest representable value (ties to even), overflows to an
      infinity and propagates NaN; a score enters it as the float nearest
      to its literal.  The exact-rational reading of the cross-candidate step
      ([vote_share_percent]) is kept for the one property in which no
      rounding takes part, the symmetry in the signs.
    - Calls that can raise (the artifacts, division, [int] of a float, a
      missing dictionary entry, reading the request) return a [result];
      [try ... except Exception] is [try_except].
    - [list(set(xs))] lists the distinct elements in an order the language
      leaves open; the order is a parameter of [top_keywords]. *)

From Stdlib Require Import Ascii String List Bool Arith ZArith QArith Qround Qabs Lia Lqa.
Import ListNotations.

Open Scope bool_scope.
Open Scope list_scope.

(** ** Python strings *)

Definition str := list ascii.

(** String literals of the source. *)
Definition lit (s : string) : str := list_ascii_of_string s.

Definition chr (n : N) : ascii := ascii_of_N n.
Definition ord (c : ascii) : N := N_of_ascii c.

Definition in_range (lo hi : N) (c : ascii) : bool :=
  (N.leb lo (ord c)) && (N.leb (ord c) hi).

(** [\s] of [re] on [str], which is also the set [str.strip()] and
    [str.split()] use: U+0009..U+000D, U+001C..U+0020, U+0085, U+00A0. *)
Definition is_space (c : ascii) : bool :=
  in_range 9 13 c || in_range 28 32 c || N.eqb (ord c) 133 || N.eqb (ord c) 160.

(** [str.isalnum] below 256: digits, letters, the ordinal indicators and
    micro sign, superscript digits and vulgar fractions, and the Latin-1
    letters (all of U+00C0..U+00FF but the two operators). *)
Definition is_alnum (c : ascii) : bool :=
  in_range 48 57 c || in_range 65 90 c || in_range 97 122 c
  || N.eqb (ord c) 170 || in_range 178 179 c || N.eqb (ord c) 181
  || in_range 185 186 c || in_range 188 190 c
  || in_range 192 214 c || in_range 216 246 c || in_range 248 255 c.

(** [\w] of [re] on [str]: alphanumeric or underscore. *)
Definition is_word (c : ascii) : bool :=
  is_alnum c || N.eqb (ord c) 95.

(** [str.lower] on one code point: A..Z and the Latin-1 capitals. *)
Definition lower_char (c : ascii) : ascii :=
  if in_range 65 90 c || in_range 192 214 c || in_range 216 222 c
  then chr (ord c + 32) else c.

(** [str.upper] on one code point; it is applied to allowlist words only,
    which are made of a..z. *)
Definition upper_char (c : ascii) : ascii :=
  if in_range 97 122 c then chr (ord c - 32) else c.

Definition lower (s : str) : str := map lower_char s.
Definition upper (s : str) : str := map upper_char s.

Definition str_eqb (a b : str) : bool :=
  if list_eq_dec ascii_dec a b then true else false.

(** [x in xs] on a list of strings. *)
Definition in_list (x : str) (xs : list str) : bool := existsb (str_eqb x) xs.

Fixpoint take_while (p : ascii -> bool) (s : str) : str :=
  match s with
  | [] => []
  | c :: r => if p c then c :: take_while p r else []
  end.

Fixpoint drop_while (p : ascii -> bool) (s : str) : str :=
  match s with
  | [] => []
  | c :: r => if p c then drop_while p r else s
  end.

(** [s.strip(chars)] with the character set as a predicate. *)
Definition strip_by (p : ascii -> bool) (s : str) : str :=
  rev (drop_while p (rev (drop_while p s))).

(** [s.strip()] *)
Definition strip (s : str) : str := strip_by is_space s.

Fixpoint startswith (p s : str) : bool :=
  match p, s with
  | [], _ => true
  | _ :: _, [] => false
  | a :: p', b :: s' => Ascii.eqb a b && startswith p' s'
  end.

(** [w in text] on strings: [w] occurs at some position of [text]. *)
Fixpoint contains (w text : str) : bool :=
  startswith w text ||
  match text with
  | [] => false
  | _ :: r => contains w r
  end.

(** [s.split()]: the maximal runs of non-whitespace, in order.  [cur] is the
    token being read, reversed. *)
Fixpoint split_from (cur : str) (s : str) : list str :=
  match s with
  | [] => match cur with [] => [] | _ => [rev cur] end
  | c :: r =>
      if is_space c
      then match cur with
           | [] => split_from [] r
           | _ => rev cur :: split_from [] r
           end
      else split_from (c :: cur) r
  end.

Definition split (s : str) : list str := split_from [] s.

(** ** [re.sub]

    A pattern is given by what it does at one position: [m s] is
    [Some (repl, n)] when the pattern matches the first [n] characters of
    [s] ([n >= 1] for every pattern of this program) and [repl] is the
    expansion of the replacement template for that match.  [re.sub] scans
    left to right, replaces each match and resumes after it; [skip] counts
    the characters of the current match still to be passed over. *)

Definition matcher := str -> option (str * nat).

Fixpoint re_scan (m : matcher) (skip : nat) (s : str) : str :=
  match s with
  | [] => []
  | c :: r =>
      match skip with
      | S k => re_scan m k r
      | O =>
          match m s with
          | Some (repl, n) => repl ++ re_scan m (Nat.pred n) r
          | None => c :: re_scan m O r
          end
      end
  end.

Definition re_sub (m : matcher) (s : str) : str := re_scan m O s.

(** [http\S+] replaced by the empty string. *)
Definition pat_url : matcher := fun s =>
  if startswith (lit "http") s then
    match take_while (fun c => negb (is_space c)) (skipn 4 s) with
    | [] => None
    | run => Some ([], 4 + length run)%nat
    end
  else None.

(** [<sigil>(\w+)] replaced by group 1, for [@] and [#]. *)
Definition pat_sigil (sigil : ascii) : matcher := fun s =>
  match s with
  | c :: r =>
      if Ascii.eqb c sigil then
        match take_while is_word r with
        | [] => None
        | run => Some (run, S (length run))
        end
      else None
  | [] => None
  end.

Definition apostrophe : ascii := chr 39.
Definition space : ascii := chr 32.

(** [[^\w\s\']] replaced by one space. *)
Definition pat_punct : matcher := fun s =>
  match s with
  | c :: _ =>
      if is_word c || is_space c || Ascii.eqb c apostrophe then None
      else Some ([space], 1%nat)
  | [] => None
  end.

(** [\s+] replaced by one space. *)
Definition pat_spaces : matcher := fun s =>
  match take_while is_space s with
  | [] => None
  | run => Some ([space], length run)
  end.

(** ** Python values reaching [clean_text] *)

Inductive py_value : Type :=
| PyStr (s : str)
| PyNone
| PyBool (b : bool)
| PyInt (z : Z)
| PyFloat (q : Q)
| PyBytes (b : list ascii).

(** The body of [clean_text] once [isinstance(text, str)] holds. *)
Definition clean_str (text : str) : str :=
  let text := re_sub pat_url text in
  let text := re_sub (pat_sigil "@"%char) text in
  let text := re_sub (pat_sigil "#"%char) text in
  let text := re_sub pat_punct text in
  let text := strip (lower text) in
  let text := re_sub pat_spaces text in
  text.

Definition clean_text (text : py_value) : str :=
  match text with
  | PyStr s => clean_str s
  | _ => []
  end.

(** ** Exceptions

    [exn] stands for an instance of [Exception], the class the handler of
    [analyze_sentiment] names; the payload is its message. *)

Inductive exn : Type := Exception (msg : string).

Inductive result (A : Type) : Type :=
| Ok (a : A)
| Raise (e : exn).
Arguments Ok {A} a.
Arguments Raise {A} e.

Definition bind {A B : Type} (r : result A) (k : A -> result B) : result B :=
  match r with
  | Ok a => k a
  | Raise e => Raise e
  end.

(** [try: body except Exception as e: handler e] *)
Definition try_except {A : Type} (body : result A) (handler : exn -> result A) : result A :=
  match body with
  | Ok a => Ok a
  | Raise e => handler e
  end.

Notation "x <- c ;; k" := (bind c (fun x => k))
  (at level 61, c at next level, right associativity).

(** ** Scores and dictionaries *)

(** [sum(xs)] on integers and on floats: from 0, left to right. *)
Definition py_sum (xs : list Z) : Z := fold_left Z.add xs 0%Z.
Definition py_fsum (xs : list Q) : Q := fold_left Qplus xs 0%Q.

(** [d.get(k, default)] on a dict with string keys. *)
Fixpoint dict_get {V : Type} (d : list (str * V)) (k : str) (default : V) : V :=
  match d with
  | [] => default
  | (k', v) :: d' => if str_eqb k k' then v else dict_get d' k default
  end.

Definition sentiment_map : list (str * Q) :=
  [ (lit "strong_negative", -0.9);
    (lit "negative", -0.6);
    (lit "neutral", 0.0);
    (lit "positive", 0.6);
    (lit "strong_positive", 0.9) ]%Q.

(** ** [_rule_based_sentiment] *)

Definition strong_positive : list str :=
  map lit ["excellent"; "amazing"; "wonderful"; "fantastic"; "outstanding";
           "brilliant"; "superb"; "perfect"; "exceptional"; "phenomenal"]%string.
Definition positive : list str :=
  map lit ["good"; "great"; "nice"; "better"; "improved"; "positive";
           "support"; "like"; "love"; "approve"; "recommend"]%string.
Definition negative : list str :=
  map lit ["bad"; "poor"; "worse"; "negative"; "dislike"; "hate";
           "problem"; "issue"; "concern"; "criticize"; "oppose"]%string.
Definition strong_negative : list str :=
  map lit ["terrible"; "awful"; "horrible"; "disastrous"; "catastrophic";
           "dreadful"; "appalling"; "atrocious"; "deplorable"; "abysmal"]%string.

(** [sum(1 for word in lexicon if word in text)] *)
Definition count_in (lexicon : list str) (text : str) : Z :=
  py_sum (map (fun _ => 1%Z) (filter (fun word => contains word text) lexicon)).

Definition _rule_based_sentiment (text : str) : Q :=
  let text := lower text in
  let strong_pos_count := count_in strong_positive text in
  let pos_count := count_in positive text in
  let neg_count := count_in negative text in
  let strong_neg_count := count_in strong_negative text in
  let total_positive := (strong_pos_count * 2 + pos_count)%Z in
  let total_negative := (strong_neg_count * 2 + neg_count)%Z in
  if (total_positive >? total_negative)%Z then
    if (strong_pos_count >? 0)%Z then 0.8%Q else 0.5%Q
  else if (total_negative >? total_positive)%Z then
    if (strong_neg_count >? 0)%Z then (-0.8)%Q else (-0.5)%Q
  else 0.0%Q.

(** ** [EnhancedSentimentAnalyzer]

    The two artifacts are opaque to the program but for the calls made on
    them: [vectorizer.transform(texts)] and [model.predict(x)[0]], either of
    which may raise.  [None] is the attribute left at [None] by
    [load_models]. *)

Record EnhancedSentimentAnalyzer (features : Type) : Type := {
  model : option (features -> result str);
  vectorizer : option (list str -> result features)
}.
Arguments model {features} _.
Arguments vectorizer {features} _.

Definition analyze_sentiment {features : Type}
    (self : EnhancedSentimentAnalyzer features) (text : py_value) : result Q :=
  let cleaned_text := clean_text text in
  match model self, vectorizer self with
  | Some the_model, Some the_vectorizer =>
      try_except
        (text_tfidf <- the_vectorizer [cleaned_text] ;;
         prediction <- the_model text_tfidf ;;
         Ok (dict_get sentiment_map prediction 0.0%Q))
        (fun _ => Ok (_rule_based_sentiment cleaned_text))
  | _, _ => Ok (_rule_based_sentiment cleaned_text)
  end.

(** ** [views.py]: keyword extraction *)

Definition keyword_allowlist : list str :=
  map lit ["economy"; "apc"; "pdp"; "lp"; "reform"; "manifesto";
           "experience"; "governance"; "unity"; "youth"; "change";
           "accountability"; "development"; "education"; "security";
           "jobs"; "nigeria"; "vote"; "leadership"]%string.

(** Membership in the character set given to [word.strip]: full stop,
    comma, exclamation and question marks, double quote (code 34),
    semicolon, colon, parentheses and square brackets. *)
Definition is_keyword_punct (c : ascii) : bool :=
  existsb (Ascii.eqb c) (lit ".,!?" ++ [chr 34] ++ lit ";:()[]").

Definition extract_keywords (text : str) : list str :=
  let words := split (lower text) in
  fold_left
    (fun keywords word =>
       let clean := strip_by is_keyword_punct word in
       if in_list clean keyword_allowlist then keywords ++ [upper clean]
       else keywords)
    words [].

Inductive candidate : Type := tinubu | atiku | obi.

Definition fallback (c : candidate) : list str :=
  match c with
  | tinubu => map lit ["ECONOMY"; "APC"; "REFORM"; "MANIFESTO"]%string
  | atiku => map lit ["EXPERIENCE"; "PDP"; "GOVERNANCE"; "UNITY"]%string
  | obi => map lit ["YOUTH"; "LP"; "CHANGE"; "ACCOUNTABILITY"]%string
  end.

(** A sampled CSV row, with [likes] and [retweets] as
    [int(row.get(..., 0))] reads them. *)
Record row : Type := {
  text : str;
  likes : Z;
  retweets : Z
}.

(** [list(set(xs))] lists each element of [xs] once, in the iteration order
    of the set, which the language leaves open (for strings it follows the
    per-process hashes).  The order is a parameter; [set_order_ok] is what
    any such listing satisfies. *)
Definition set_order := list str -> list str.

Definition set_order_ok (order : set_order) : Prop :=
  forall xs, NoDup (order xs) /\ (forall x, In x (order xs) <-> In x xs).

(** One admissible order: first occurrences, in encounter order. *)
Fixpoint first_seen (seen : list str) (xs : list str) : list str :=
  match xs with
  | [] => []
  | x :: r => if in_list x seen then first_seen seen r
              else x :: first_seen (x :: seen) r
  end.

Definition encounter_order : set_order := first_seen [].

(** Another admissible order: last met first. *)
Definition latest_first : set_order := fun xs => rev (first_seen [] xs).

Definition all_keywords (sample : list row) : list str :=
  fold_left (fun acc r => acc ++ extract_keywords (text r)) sample [].

(** [top_keywords] of [get_results], lines 139-150. *)
Definition top_keywords (order : set_order) (c : candidate) (sample : list row) : list str :=
  let top := firstn 4 (order (all_keywords sample)) in
  if (length top <? 4)%nat then firstn 4 (top ++ fallback c) else top.

(** ** Engagement *)

(** [int(x)] on a float: truncation toward zero. *)
Definition py_int (x : Q) : Z :=
  if Qle_bool 0 x then Qfloor x else Qceiling x.

(** [round(x)] on a float: nearest integer, ties to even. *)
Definition py_round (x : Q) : Z :=
  let f := Qfloor x in
  let r := (x - inject_Z f)%Q in
  match (r ?= 1 # 2)%Q with
  | Lt => f
  | Gt => (f + 1)%Z
  | Eq => if Z.even f then f else (f + 1)%Z
  end.

(** ** Binary64 floats

    A finite float is carried by the rational it denotes; the sign of a
    zero is not kept (the code never divides by a float zero without
    raising, and nothing else in it tells the two zeros apart). *)

Module Binary64.

Inductive float : Type :=
| Finite (q : Q)
| Infinity (negative : bool)
| NaN.

(** The integer nearest to [n / d], ties to even, for [0 < d]. *)
Definition round_div (n d : Z) : Z :=
  let q := (n / d)%Z in
  match (2 * (n mod d) ?= d)%Z with
  | Lt => q
  | Gt => (q + 1)%Z
  | Eq => if Z.even q then q else (q + 1)%Z
  end.

(** The exponent [e] with [2^e <= n / d < 2^(e+1)], for [0 < n], [0 < d]. *)
Definition ilog2 (n d : Z) : Z :=
  let e := (Z.log2 n - Z.log2 d)%Z in
  if (if (0 <=? e)%Z then (d * 2 ^ e <=? n)%Z else (d <=? n * 2 ^ (- e))%Z)
  then e else (e - 1)%Z.

(** [n / d > 0] rounded to 53 significant bits, or to a multiple of
    [2^-1074] where that is coarser (subnormal range); [None] when the
    rounded value is beyond the largest float. *)
Definition round_pos (n d : Z) : option Q :=
  let p := Z.min (52 - ilog2 n d) 1074 in
  let v := if (0 <=? p)%Z
           then Qmake (round_div (n * 2 ^ p) d) (Z.to_pos (2 ^ p))
           else inject_Z (round_div n (d * 2 ^ (- p)) * 2 ^ (- p)) in
  if Qle_bool (inject_Z (2 ^ 1024)) v then None else Some (Qred v).

(** The float nearest to a rational, ties to even. *)
Definition round64 (q : Q) : float :=
  match Qnum q with
  | Z0 => Finite 0
  | Zpos n =>
      match round_pos (Zpos n) (Zpos (Qden q)) with
      | Some v => Finite v
      | None => Infinity false
      end
  | Zneg n =>
      match round_pos (Zpos n) (Zpos (Qden q)) with
      | Some v => Finite (- v)
      | None => Infinity true
      end
  end.

Definition is_negative (q : Q) : bool := (Qnum q <? 0)%Z.

Definition abs (x : float) : float :=
  match x with
  | Finite q => Finite (Qabs q)
  | Infinity _ => Infinity false
  | NaN => NaN
  end.

(** [x == 0] *)
Definition is_zero (x : float) : bool :=
  match x with
  | Finite q => Qeq_bool q 0
  | _ => false
  end.

(** [x > 0] *)
Definition is_positive (x : float) : bool :=
  match x with
  | Finite q => negb (Qle_bool q 0)
  | Infinity negative => negb negative
  | NaN => false
  end.

Definition add (x y : float) : float :=
  match x, y with
  | Finite a, Finite b => round64 (a + b)
  | Finite _, Infinity s | Infinity s, Finite _ => Infinity s
  | Infinity s, Infinity t => if Bool.eqb s t then Infinity s else NaN
  | _, _ => NaN
  end.

Definition mul (x y : float) : float :=
  match x, y with
  | Finite a, Finite b => round64 (a * b)
  | Finite a, Infinity s | Infinity s, Finite a =>
      if Qeq_bool a 0 then NaN else Infinity (xorb s (is_negative a))
  | Infinity s, Infinity t => Infinity (xorb s t)
  | _, _ => NaN
  end.

(** The quotient by a divisor that is not zero. *)
Definition div (x y : float) : float :=
  match x, y with
  | Finite a, Finite b => round64 (a / b)
  | Finite _, Infinity _ => Finite 0
  | Infinity s, Finite b => Infinity (xorb s (is_negative b))
  | _, _ => NaN
  end.

End Binary64.

(** [sum(xs)] on floats: from 0, left to right, one rounding per
    addition. *)
Definition float_sum (xs : list Binary64.float) : Binary64.float :=
  fold_left Binary64.add xs (Binary64.Finite 0).

(** [a / b]: a zero divisor raises [ZeroDivisionError], on floats and on
    integers. *)
Definition ZeroDivisionError : exn := Exception "division by zero".

(** On exact rationals. *)
Definition fdiv (a b : Q) : result Q :=
  if Qeq_bool b 0 then Raise ZeroDivisionError else Ok (a / b)%Q.

Definition float_div (x y : Binary64.float) : result Binary64.float :=
  if Binary64.is_zero y then Raise ZeroDivisionError else Ok (Binary64.div x y).

(** True division of integers: the float nearest to the exact quotient;
    [OverflowError] when that is beyond the largest float. *)
Definition truediv (a b : Z) : result Binary64.float :=
  if (b =? 0)%Z then Raise ZeroDivisionError
  else match Binary64.round64 (inject_Z a / inject_Z b) with
       | Binary64.Infinity _ =>
           Raise (Exception "integer division result too large for a float")
       | quotient => Ok quotient
       end.

(** [int(x)] on a float: [ValueError] on NaN, [OverflowError] on an
    infinity. *)
Definition float_int (x : Binary64.float) : result Z :=
  match x with
  | Binary64.Finite q => Ok (py_int q)
  | Binary64.Infinity _ => Raise (Exception "cannot convert float infinity to integer")
  | Binary64.NaN => Raise (Exception "cannot convert float NaN to integer")
  end.

(** [round(x, ndigits)] on a float: the float nearest to the decimal
    rounding (ties to even) of the value [x] denotes; NaN and the
    infinities are returned as they are. *)
Definition float_round (x : Binary64.float) (ndigits : nat) : Binary64.float :=
  match x with
  | Binary64.Finite q =>
      let scale := inject_Z (10 ^ Z.of_nat ndigits) in
      Binary64.round64 (inject_Z (py_round (q * scale)) / scale)
  | _ => x
  end.

Definition len {A : Type} (l : list A) : Z := Z.of_nat (length l).

Record engagement : Type := {
  avg_likes : Z;
  avg_retweets : Z;
  total_reach : Z
}.

(** [int(sum(xs) / len(xs)) if xs else 0] *)
Definition average (xs : list Z) : result Z :=
  match xs with
  | [] => Ok 0%Z
  | _ :: _ => q <- truediv (py_sum xs) (len xs) ;; float_int q
  end.

(** Lines 134-137 and 164-168 of [get_results]. *)
Definition engagement_of (sample : list row) : result engagement :=
  let likes := map likes sample in
  let retweets := map retweets sample in
  let total_reach := (py_sum likes + py_sum retweets * 2)%Z in
  likes_average <- average likes ;;
  retweets_average <- average retweets ;;
  Ok {| avg_likes := likes_average;
        avg_retweets := retweets_average;
        total_reach := total_reach |}.

(** [mean] as the specification uses it. *)
Definition mean (xs : list Z) : Q := (inject_Z (py_sum xs) / inject_Z (len xs))%Q.

(** ** Vote shares *)

(** [percentages[i] if len(percentages) > i else default] *)
Definition item_or {A : Type} (l : list A) (i : nat) (default : A) : A :=
  nth i l default.

(** [[(abs(sv) / total_strength) * 100 for sv in values]] *)
Fixpoint percentages_of (values : list Q) (total_strength : Q) : result (list Q) :=
  match values with
  | [] => Ok []
  | sv :: rest =>
      q <- fdiv (Qabs sv) total_strength ;;
      percentages <- percentages_of rest total_strength ;;
      Ok ((q * 100)%Q :: percentages)
  end.

Definition pick3 (percentages : list Q) : Q * Q * Q :=
  (item_or percentages 0 40.0, item_or percentages 1 35.0, item_or percentages 2 25.0)%Q.

(** Lines 178-197 of [get_results], read over exact rationals: the two
    lists hold one average per candidate with data, in the order tinubu,
    atiku, obi.  The result is [(tinubu_percent, atiku_percent,
    obi_percent)].  [vote_shares] below is the same step in binary64. *)
Definition vote_share_percent (sentiment_values ml_sentiment_values : list Q)
  : result (Q * Q * Q) :=
  let total_strength := py_fsum (map Qabs ml_sentiment_values) in
  if Qeq_bool total_strength 0 then
    let total_strength := py_fsum (map Qabs sentiment_values) in
    if Qeq_bool total_strength 0 then Ok (40.0, 35.0, 25.0)%Q
    else percentages <- percentages_of sentiment_values total_strength ;;
         Ok (pick3 percentages)
  else percentages <- percentages_of ml_sentiment_values total_strength ;;
       Ok (pick3 percentages).

Definition total_votes : Z := 20000000.

Definition candidates : list candidate := [tinubu; atiku; obi].

(** What the per-candidate loop of [get_results] leaves behind: for a
    candidate with data the pair [(avg_sentiment, avg_ml_sentiment)] of its
    sample; [None] for a candidate with no rows, whose iteration is skipped
    and who gets no entry in [results]. *)
Definition candidate_averages : Type := candidate -> option (Q * Q).

Definition has_data (stats : candidate_averages) (c : candidate) : bool :=
  match stats c with
  | Some _ => true
  | None => false
  end.

(** The two lists the loop appends to, in the order of [candidates]. *)
Definition collected_sentiment_values (stats : candidate_averages) : list Q :=
  flat_map (fun c => match stats c with Some (avg, _) => [avg] | None => [] end)
           candidates.

Definition collected_ml_sentiment_values (stats : candidate_averages) : list Q :=
  flat_map (fun c => match stats c with Some (_, ml_avg) => [ml_avg] | None => [] end)
           candidates.

(** Lines 178-202, read over exact rationals: the shares are computed,
    then written under the three candidates' entries of [results];
    [results[c]] raises [KeyError] for a candidate that has none.
    [assign_percentages_and_votes] below is lines 178-206 in binary64. *)
Definition get_results_percent (stats : candidate_averages) : result (Q * Q * Q) :=
  shares <- vote_share_percent (collected_sentiment_values stats)
                               (collected_ml_sentiment_values stats) ;;
  if forallb (has_data stats) candidates then Ok shares
  else Raise (Exception "KeyError").

(** ** Vocabulary of the statements *)

(** [w] occurs in [text] as a contiguous run of characters. *)
Definition occurs (w text : str) : Prop :=
  exists pre post, text = pre ++ w ++ post.

(** [text] holds a URL-like token in the sense of [clean_text]: the letters
    [http] immediately followed by a character that is not whitespace. *)
Fixpoint has_url (text : str) : bool :=
  (startswith (lit "http") text &&
   match skipn 4 text with
   | c :: _ => negb (is_space c)
   | [] => false
   end)
  || match text with
     | [] => false
     | _ :: r => has_url r
     end.

(** Characters that [clean_text] lets through. *)
Definition is_clean_char (c : ascii) : bool :=
  is_word c || is_space c || Ascii.eqb c apostrophe.

Definition head_nonspace (s : str) : bool :=
  match s with
  | [] => false
  | d :: _ => negb (is_space d)
  end.

(** Every whitespace character of [s] is a single U+0020 followed by a
    character that is not whitespace. *)
Fixpoint tidy_tail (s : str) : bool :=
  match s with
  | [] => true
  | c :: r =>
      if is_space c
      then Ascii.eqb c space && head_nonspace r && tidy_tail r
      else tidy_tail r
  end.

(** [s] is empty or starts with a character that is not whitespace. *)
Definition starts_ok (s : str) : bool :=
  match s with
  | [] => true
  | c :: _ => negb (is_space c)
  end.

(** [s] is empty or ends with a character that is not whitespace. *)
Fixpoint ends_ok (s : str) : bool :=
  match s with
  | [] => true
  | c :: r =>
      match r with
      | [] => negb (is_space c)
      | _ :: _ => ends_ok r
      end
  end.

(** No suffix of [s] is matched by [m]. *)
Fixpoint no_match (m : matcher) (s : str) : Prop :=
  match s with
  | [] => True
  | _ :: r => m s = None /\ no_match m r
  end.

Definition lexicons : list str :=
  strong_positive ++ positive ++ negative ++ strong_negative.

Definition is_str (v : py_value) : bool :=
  match v with
  | PyStr _ => true
  | _ => false
  end.

(** Averages for a run in which the engine's averages are not all zero. *)
Definition mixed_averages : candidate_averages := fun c =>
  Some (match c with
        | tinubu => (0.5, 0.8)
        | atiku => (-0.25, 0.8)
        | obi => (0.25, -0.8)
        end)%Q.

(** The relative error of one rounding, [2^-53], and the magnitudes
    between which it holds: [2^-1022], the smallest normal float, and
    [2^1023]. *)
Definition eps64 : Q := 1 # (2 ^ 53)%positive.
Definition tiny64 : Q := 1 # (2 ^ 1022)%positive.
Definition huge64 : Q := inject_Z (2 ^ 1023).

(** An average is tame when it is zero or of magnitude between [2^-500]
    and [2^500]: far from underflow and from overflow in every operation of
    the cross-candidate step.  A float is ordinary when it is finite and
    tame. *)
Definition tame_low : Q := 1 # (2 ^ 500)%positive.
Definition tame_high : Q := inject_Z (2 ^ 500).

Definition tame (q : Q) : Prop :=
  (q == 0 \/ (tame_low <= Qabs q /\ Qabs q <= tame_high))%Q.

Definition tame_abs (a : Q) : Prop :=
  (0 <= a /\ (a == 0 \/ (tame_low <= a /\ a <= tame_high)))%Q.

Definition ordinary (x : Binary64.float) : Prop :=
  match x with
  | Binary64.Finite q => tame q
  | _ => False
  end.

(** A share of a tame run is zero or above [2^-1000]. *)
Definition share_low : Q := 1 # (2 ^ 1000)%positive.

(** An analyzer whose artifacts are loaded and label every text
    [positive]. *)
Definition always_positive : EnhancedSentimentAnalyzer unit :=
  {| model := Some (fun _ => Ok (lit "positive"));
     vectorizer := Some (fun _ => Ok tt) |}.

(** An analyzer whose vectorizer raises on every call. *)
Definition broken_vectorizer : EnhancedSentimentAnalyzer unit :=
  {| model := Some (fun _ => Ok (lit "positive"));
     vectorizer := Some (fun _ => Raise (Exception "not fitted")) |}.

(** An analyzer whose classifier raises on every call. *)
Definition broken_model : EnhancedSentimentAnalyzer unit :=
  {| model := Some (fun _ => Raise (Exception "bad shape"));
     vectorizer := Some (fun _ => Ok tt) |}.

(** The analyzer [load_models] leaves when the artifact files are absent. *)
Definition rule_based_only : EnhancedSentimentAnalyzer unit :=
  {| model := None; vectorizer := None |}.


(** The shape of every text [clean_text] returns. *)
Definition normalized (s : str) : Prop :=
  Forall (fun c => is_clean_char c = true /\ lower_char c = c) s /\
  starts_ok s = true /\ tidy_tail s = true.

(** The seven steps of the specification's normalizer, in its words and in
    its order, for comparison with [clean_str]: URL tokens removed, sigils
    stripped, every character that is not alphanumeric, whitespace or
    apostrophe removed, lower-cased, whitespace runs collapsed, trimmed. *)
Definition normalize_as_specified (text : str) : str :=
  let text := re_sub pat_url text in
  let text := re_sub (pat_sigil "@"%char) text in
  let text := re_sub (pat_sigil "#"%char) text in
  let text := filter (fun c => is_alnum c || is_space c || Ascii.eqb c apostrophe) text in
  let text := lower text in
  let text := re_sub pat_spaces text in
  strip text.

Definition row_of_likes (l : Z) : row := {| text := []; likes := l; retweets := 0 |}.

Definition row_of_text (t : string) : row :=
  {| text := lit t; likes := 0; retweets := 0 |}.

(** The keyword a token yields, if any: the token without its surrounding
    punctuation, when that is on the allowlist, in upper case. *)
Definition keyword_of (word : str) : option str :=
  let clean := strip_by is_keyword_punct word in
  if in_list clean keyword_allowlist then Some (upper clean) else None.

(** ** Further functions of [sentiment_utils.py] *)

(** [[f(x) for x in xs]] where [f] may raise: left to right, stopping at
    the first exception. *)
Fixpoint comprehension {A B : Type} (f : A -> result B) (xs : list A) : result (list B) :=
  match xs with
  | [] => Ok []
  | x :: rest => y <- f x ;; ys <- comprehension f rest ;; Ok (y :: ys)
  end.

Definition batch_analyze {features : Type}
    (self : EnhancedSentimentAnalyzer features) (texts : list py_value) : result (list Q) :=
  comprehension (analyze_sentiment self) texts.

(** What [load_models] finds on disk: whether each pickle file exists, and
    what [joblib.load] does on it (returns the artifact or raises). *)
Record artifact_files (features : Type) : Type := {
  model_file_exists : bool;
  vectorizer_file_exists : bool;
  load_model_file : result (features -> result str);
  load_vectorizer_file : result (list str -> result features)
}.
Arguments model_file_exists {features} _.
Arguments vectorizer_file_exists {features} _.
Arguments load_model_file {features} _.
Arguments load_vectorizer_file {features} _.

(** [load_models]: the two attributes are assigned one after the other
    inside one [try]; an exception leaves what was assigned before it. *)
Definition load_models {features : Type} (files : artifact_files features)
    (self : EnhancedSentimentAnalyzer features) : EnhancedSentimentAnalyzer features :=
  if model_file_exists files && vectorizer_file_exists files then
    match load_model_file files with
    | Raise _ => self
    | Ok loaded_model =>
        let self := {| model := Some loaded_model; vectorizer := vectorizer self |} in
        match load_vectorizer_file files with
        | Raise _ => self
        | Ok loaded_vectorizer =>
            {| model := model self; vectorizer := Some loaded_vectorizer |}
        end
    end
  else self.

(** [__init__] *)
Definition new_analyzer {features : Type} (files : artifact_files features)
  : EnhancedSentimentAnalyzer features :=
  load_models files {| model := None; vectorizer := None |}.

(** ** Further functions of [views.py] *)

(** ['using_ml_model'] and ['analysis_type'] of [model_info] in
    [get_results]. *)
Definition using_ml_model {features : Type} (self : EnhancedSentimentAnalyzer features) : bool :=
  match model self with
  | Some _ => true
  | None => false
  end.

Definition analysis_type {features : Type} (self : EnhancedSentimentAnalyzer features) : string :=
  if using_ml_model self then "ML Enhanced"%string else "Rule-Based Fallback"%string.

(** [round(x, ndigits)] *)
Definition py_round_digits (x : Q) (ndigits : nat) : Q :=
  let scale := inject_Z (10 ^ Z.of_nat ndigits) in
  (inject_Z (py_round (x * scale)) / scale)%Q.

(** *** The cross-candidate step of [get_results] in binary64 *)

(** [[(abs(sv) / total_strength) * 100 for sv in values]] *)
Definition share_percentages (values : list Binary64.float)
    (total_strength : Binary64.float) : result (list Binary64.float) :=
  comprehension
    (fun sv => q <- float_div (Binary64.abs sv) total_strength ;;
               Ok (Binary64.mul q (Binary64.Finite 100)))
    values.

Definition pick_shares (percentages : list Binary64.float)
  : Binary64.float * Binary64.float * Binary64.float :=
  (item_or percentages 0 (Binary64.Finite 40),
   item_or percentages 1 (Binary64.Finite 35),
   item_or percentages 2 (Binary64.Finite 25)).

(** Lines 178-197: [(tinubu_percent, atiku_percent, obi_percent)] from the
    two lists of averages. *)
Definition vote_shares (sentiment_values ml_sentiment_values : list Binary64.float)
  : result (Binary64.float * Binary64.float * Binary64.float) :=
  let total_strength := float_sum (map Binary64.abs ml_sentiment_values) in
  if Binary64.is_zero total_strength then
    let total_strength := float_sum (map Binary64.abs sentiment_values) in
    if Binary64.is_zero total_strength
    then Ok (Binary64.Finite 40, Binary64.Finite 35, Binary64.Finite 25)
    else percentages <- share_percentages sentiment_values total_strength ;;
         Ok (pick_shares percentages)
  else percentages <- share_percentages ml_sentiment_values total_strength ;;
       Ok (pick_shares percentages).

(** [int(total_votes * (percent / 100))] *)
Definition projected_votes (percent : Binary64.float) : result Z :=
  q <- float_div percent (Binary64.Finite 100) ;;
  float_int (Binary64.mul (Binary64.Finite (inject_Z total_votes)) q).

(** What the per-candidate loop leaves behind, as floats: the pair
    [(avg_sentiment, avg_ml_sentiment)] of a candidate with data.  The
    stored scores are whatever [float()] accepts, NaN and the infinities
    included. *)
Definition float_averages : Type := candidate -> option (Binary64.float * Binary64.float).

Definition stored_averages (stats : float_averages) : list Binary64.float :=
  flat_map (fun c => match stats c with Some (avg, _) => [avg] | None => [] end)
           candidates.

Definition engine_averages (stats : float_averages) : list Binary64.float :=
  flat_map (fun c => match stats c with Some (_, ml_avg) => [ml_avg] | None => [] end)
           candidates.

Definition KeyError : exn := Exception "KeyError".

(** [results[c]] *)
Definition results_entry (stats : float_averages) (c : candidate) : result unit :=
  match stats c with
  | Some _ => Ok tt
  | None => Raise KeyError
  end.

(** Lines 178-206.  An assignment evaluates its right-hand side before it
    looks up [results[c]]; [round] of a float raises nothing, [int] does on
    NaN and on an infinity.  The result is the three stored percentages
    and the three vote counts. *)
Definition assign_percentages_and_votes (stats : float_averages)
  : result ((Binary64.float * Binary64.float * Binary64.float) * (Z * Z * Z)) :=
  shares <- vote_shares (stored_averages stats) (engine_averages stats) ;;
  let '(tinubu_percent, atiku_percent, obi_percent) := shares in
  let tinubu_percentage := float_round tinubu_percent 2 in
  _ <- results_entry stats tinubu ;;
  let atiku_percentage := float_round atiku_percent 2 in
  _ <- results_entry stats atiku ;;
  let obi_percentage := float_round obi_percent 2 in
  _ <- results_entry stats obi ;;
  tinubu_votes <- projected_votes tinubu_percent ;;
  atiku_votes <- projected_votes atiku_percent ;;
  obi_votes <- projected_votes obi_percent ;;
  Ok ((tinubu_percentage, atiku_percentage, obi_percentage),
      (tinubu_votes, atiku_votes, obi_votes)).

(** *** [home] *)

(** The three sample sentences and what the context holds for each
    candidate. *)
Definition sample_tinubu : str := lit "Tinubu is building a strong economy for Nigeria".
Definition sample_atiku : str := lit "Atiku has the experience to fix Nigeria's economy".
Definition sample_obi : str := lit "Peter Obi is the voice of the Nigerian youth".

Record candidate_card : Type := {
  card_percentage : Binary64.float;
  card_sentiment : Binary64.float;
  card_votes : Z
}.

(** The float a score literal denotes. *)
Definition float_of_score (score : Q) : Binary64.float := Binary64.round64 score.

Definition make_card (percent sentiment : Binary64.float) : result candidate_card :=
  q <- float_div percent (Binary64.Finite 100) ;;
  the_votes <- float_int (Binary64.mul (Binary64.Finite 20000000) q) ;;
  Ok {| card_percentage := float_round percent 2;
        card_sentiment := float_round sentiment 2;
        card_votes := the_votes |}.

(** The percentages of [home] from the three sentiments, before rounding:
    [total = sum(sentiments) if sum(sentiments) > 0 else 1]. *)
Definition home_percent (tinubu_sentiment atiku_sentiment obi_sentiment : Binary64.float)
  : result (Binary64.float * Binary64.float * Binary64.float) :=
  let sentiments := [Binary64.abs tinubu_sentiment; Binary64.abs atiku_sentiment;
                     Binary64.abs obi_sentiment] in
  let total := if Binary64.is_positive (float_sum sentiments)
               then float_sum sentiments else Binary64.Finite 1 in
  tinubu_share <- float_div (Binary64.abs tinubu_sentiment) total ;;
  atiku_share <- float_div (Binary64.abs atiku_sentiment) total ;;
  obi_share <- float_div (Binary64.abs obi_sentiment) total ;;
  Ok (Binary64.mul tinubu_share (Binary64.Finite 100),
      Binary64.mul atiku_share (Binary64.Finite 100),
      Binary64.mul obi_share (Binary64.Finite 100)).

(** The cards of [home_percent]'s three percentages. *)
Definition home_cards_of (tinubu_sentiment atiku_sentiment obi_sentiment : Binary64.float)
  : result (candidate_card * candidate_card * candidate_card) :=
  percents <- home_percent tinubu_sentiment atiku_sentiment obi_sentiment ;;
  let '(tinubu_percent, atiku_percent, obi_percent) := percents in
  tinubu_card <- make_card tinubu_percent tinubu_sentiment ;;
  atiku_card <- make_card atiku_percent atiku_sentiment ;;
  obi_card <- make_card obi_percent obi_sentiment ;;
  Ok (tinubu_card, atiku_card, obi_card).

(** [home] up to its last line: the entries of ['initial_data'] of the
    context (the ['candidates'] list holds the same numbers).  The last
    line hands the context to [render], whose template lookup and
    rendering are outside this embedding. *)
Definition home_context {features : Type} (self : EnhancedSentimentAnalyzer features)
  : result (candidate_card * candidate_card * candidate_card) :=
  tinubu_sentiment <- analyze_sentiment self (PyStr sample_tinubu) ;;
  atiku_sentiment <- analyze_sentiment self (PyStr sample_atiku) ;;
  obi_sentiment <- analyze_sentiment self (PyStr sample_obi) ;;
  home_cards_of (float_of_score tinubu_sentiment) (float_of_score atiku_sentiment)
                (float_of_score obi_sentiment).

(** [analyze_single_tweet] *)
Inductive http_response : Type :=
| JsonOk (text : str) (sentiment_score : Q) (sentiment_label : string) (kind : string)
| JsonError (status : Z) (error : string).

Definition exn_message (e : exn) : string :=
  match e with Exception msg => msg end.

Definition sentiment_label (score : Q) : string :=
  if negb (Qle_bool score 0) then "Positive"%string
  else if negb (Qle_bool 0 score) then "Negative"%string
  else "Neutral"%string.

(** [method] is [request.method].  [post] is what reading [request.POST]
    gives inside the [try]: the ['text'] entry of the form ([None] when the
    key is absent), or the exception Django raises while it parses the
    request body. *)
Definition analyze_single_tweet {features : Type}
    (self : EnhancedSentimentAnalyzer features)
    (method : string) (post : result (option str)) : result http_response :=
  if String.eqb method "POST" then
    try_except
      (post_text <- post ;;
       let tweet_text := match post_text with Some t => t | None => [] end in
       match tweet_text with
       | [] => Ok (JsonError 400 "No text provided")
       | _ :: _ =>
           sentiment_score <- analyze_sentiment self (PyStr tweet_text) ;;
           Ok (JsonOk tweet_text
                      (py_round_digits sentiment_score 4)
                      (sentiment_label sentiment_score)
                      (if using_ml_model self then "ML Model" else "Rule-Based"))
       end)
      (fun e => Ok (JsonError 500 ("Analysis failed: " ++ exn_message e)))
  else Ok (JsonError 405 "Method not allowed").

(** [get_twitter_sentiment] *)
Definition fallback_sentiments : list (str * list Q) :=
  [ (lit "tinubu", [0.5; 0.6; 0.4; 0.7; 0.3]);
    (lit "atiku", [0.3; 0.4; 0.2; 0.5; 0.6]);
    (lit "obi", [0.7; 0.8; 0.6; 0.9; 0.5]) ]%Q.

(** The dictionary comprehension shared by the two branches: for every
    candidate, the engine's score of one of two sentences about it. *)
Definition fallback_scores {features : Type} (self : EnhancedSentimentAnalyzer features)
    (if_positive if_not : str) : result (list (str * list Q)) :=
  comprehension
    (fun entry : str * list Q =>
       let '(candidate, sentiments) := entry in
       scores <- comprehension
                   (fun s : Q =>
                      analyze_sentiment self
                        (PyStr (if negb (Qle_bool s 0) then candidate ++ if_positive
                                else candidate ++ if_not)))
                   sentiments ;;
       Ok (candidate, scores))
    fallback_sentiments.

(** [api_key] is [os.getenv('TWITTER_API_KEY')]; the result is [None] when
    the function reaches its end without a [return]. *)
Definition get_twitter_sentiment {features : Type}
    (self : EnhancedSentimentAnalyzer features) (api_key : option str)
  : result (option (list (str * list Q))) :=
  try_except
    (match api_key with
     | None | Some [] =>
         d <- fallback_scores self (lit " is doing well") (lit " is not good") ;;
         Ok (Some d)
     | Some (_ :: _) => Ok None
     end)
    (fun _ =>
       d <- fallback_scores self (lit " positive tweet") (lit " negative tweet") ;;
       Ok (Some d)).

(** ** [utils/sentiment_analysis.py] *)

Definition is_ascii_alnum (c : ascii) : bool :=
  in_range 48 57 c || in_range 65 90 c || in_range 97 122 c.

Definition tab : ascii := chr 9.

(** The pattern of [clean_tweet], three alternatives tried in order at each
    position: a mention ([@] and ASCII letters or digits), one character
    that is not an ASCII letter, digit, space or tab, and a URL
    ([\w+://\S+]).  Every match is replaced by one space. *)
Definition pat_tweet : matcher := fun s =>
  match s with
  | [] => None
  | c :: r =>
      match (if Ascii.eqb c "@" then take_while is_ascii_alnum r else []) with
      | (_ :: _) as handle => Some ([space], S (length handle))
      | [] =>
          if negb (is_ascii_alnum c || Ascii.eqb c space || Ascii.eqb c tab)
          then Some ([space], 1%nat)
          else
            let scheme := take_while is_word s in
            match scheme with
            | [] => None
            | _ :: _ =>
                if startswith (lit "://") (skipn (length scheme) s) then
                  match take_while (fun d => negb (is_space d))
                                   (skipn (length scheme + 3) s) with
                  | [] => None
                  | rest => Some ([space], (length scheme + 3 + length rest)%nat)
                  end
                else None
            end
      end
  end.

(** [' '.join(words)] *)
Fixpoint join_space (words : list str) : str :=
  match words with
  | [] => []
  | w :: rest =>
      match rest with
      | [] => w
      | _ :: _ => w ++ space :: join_space rest
      end
  end.

Definition clean_tweet (tweet : str) : str :=
  join_space (split (re_sub pat_tweet tweet)).

(** ** Vocabulary of the further statements *)

(** The nine scores [analyze_sentiment] can return. *)
Definition score_values : list Q :=
  [-0.9; -0.8; -0.6; -0.5; 0.0; 0.5; 0.6; 0.8; 0.9]%Q.

(** The allowlist in upper case: all that [extract_keywords] can return. *)
Definition keyword_vocabulary : list str :=
  map lit ["ECONOMY"; "APC"; "PDP"; "LP"; "REFORM"; "MANIFESTO";
           "EXPERIENCE"; "GOVERNANCE"; "UNITY"; "YOUTH"; "CHANGE";
           "ACCOUNTABILITY"; "DEVELOPMENT"; "EDUCATION"; "SECURITY";
           "JOBS"; "NIGERIA"; "VOTE"; "LEADERSHIP"]%string.

(** A token as [split] returns them: not empty, no whitespace inside. *)
Definition is_token (w : str) : Prop :=
  w <> [] /\ Forall (fun c => is_space c = false) w.

(** Files present, classifier loads, loading the vectorizer raises. *)
Definition half_loaded_files : artifact_files unit :=
  {| model_file_exists := true;
     vectorizer_file_exists := true;
     load_model_file := Ok (fun _ => Ok (lit "positive"));
     load_vectorizer_file := Raise (Exception "unpickling failed") |}.

(** Averages that differ from [mixed_averages] by signs only. *)
Definition mixed_averages_flipped : candidate_averages := fun c =>
  Some (match c with
        | tinubu => (-0.5, -0.8)
        | atiku => (0.25, 0.8)
        | obi => (0.25, 0.8)
        end)%Q.

(** The float averages a run leaves when every candidate has data: the
    stored-score average and the engine's average of each candidate, given
    by the decimal literals they are nearest to. *)
Definition averages_of (tinubu_avg atiku_avg obi_avg : Q * Q) : float_averages := fun c =>
  let '(avg, ml_avg) := match c with
                        | tinubu => tinubu_avg
                        | atiku => atiku_avg
                        | obi => obi_avg
                        end in
  Some (Binary64.round64 avg, Binary64.round64 ml_avg).

Definition mixed_float_averages : float_averages :=
  averages_of (0.5, 0.8) (-0.25, 0.8) (0.25, -0.8)%Q.



(** One row of tinubu stores the score [nan]; the engine scores every
    text 0.0. *)
Definition nan_averages : float_averages := fun c =>
  match c with
  | tinubu => Some (Binary64.NaN, Binary64.Finite 0)
  | _ => Some (Binary64.round64 0.5, Binary64.Finite 0)
  end.

(** Averages of a run whose CSV has no row for atiku. *)
Definition float_averages_without_atiku : float_averages := fun c =>
  match c with
  | atiku => None
  | _ => Some (Binary64.round64 0.5, Binary64.round64 0.5)
  end.

(** Averages whose shares lose a vote each to truncation. *)
Definition lean_float_averages : float_averages :=
  averages_of (0.18, 0.18) (0.09, 0.09) (0.03, 0.03)%Q.

(** What [home] shows for three scores, checked by evaluation: the three
    cards are computed, their percentages are finite, and either the three
    scores are zero and every percentage and vote count is zero, or the
    percentages sum to 100 within 0.02 and the votes to the electorate less
    at most 2. *)
Definition home_check (ts ta to : Q) : bool :=
  match home_cards_of (float_of_score ts) (float_of_score ta) (float_of_score to) with
  | Ok (c1, c2, c3) =>
      match card_percentage c1, card_percentage c2, card_percentage c3 with
      | Binary64.Finite p1, Binary64.Finite p2, Binary64.Finite p3 =>
          if Qeq_bool ts 0 && Qeq_bool ta 0 && Qeq_bool to 0
          then Qeq_bool p1 0 && Qeq_bool p2 0 && Qeq_bool p3 0
               && (card_votes c1 =? 0)%Z && (card_votes c2 =? 0)%Z
               && (card_votes c3 =? 0)%Z
          else Qle_bool 99.98 (p1 + p2 + p3) && Qle_bool (p1 + p2 + p3) 100.02
               && (19999998 <=? card_votes c1 + card_votes c2 + card_votes c3)%Z
               && (card_votes c1 + card_votes c2 + card_votes c3 <=? 20000000)%Z
      | _, _, _ => false
      end
  | Raise _ => false
  end.

Definition zero_card : candidate_card :=
  {| card_percentage := Binary64.Finite 0;
     card_sentiment := Binary64.Finite 0;
     card_votes := 0 |}.

(** * Properties *)

(** ** The primitives on sample inputs *)

Example split_runs : split (lit "  a bc   d ") = [lit "a"; lit "bc"; lit "d"].
Proof. reflexivity. Qed.

Example strip_keeps_inner : strip (lit "  a  b ") = lit "a  b".
Proof. reflexivity. Qed.

Example url_token_removed :
  re_sub pat_url (lit "see http://x.co/a?b=1 and HTTP://y") = lit "see  and HTTP://y".
Proof. reflexivity. Qed.

Example mention_unwrapped :
  re_sub (pat_sigil "@") (lit "@@ab c@d @ e") = lit "@ab cd @ e".
Proof. reflexivity. Qed.

Example extract_keywords_sample :
  extract_keywords (lit "The Economy, (APC)! reform. x [jobs] unity-now")
  = map lit ["ECONOMY"; "APC"; "REFORM"; "JOBS"]%string.
Proof. vm_compute. reflexivity. Qed.

(** ** Strings *)

Lemma str_eqb_eq (a b : str) : str_eqb a b = true <-> a = b.
Proof.
  unfold str_eqb. destruct (list_eq_dec ascii_dec a b); split; congruence.
Qed.

Lemma str_eqb_refl (a : str) : str_eqb a a = true.
Proof. now apply str_eqb_eq. Qed.

Lemma in_list_In (x : str) (xs : list str) : in_list x xs = true <-> In x xs.
Proof.
  unfold in_list. rewrite existsb_exists. split.
  - intros (y & Hy & E). apply str_eqb_eq in E. now subst.
  - intros H. exists x. split; [assumption | apply str_eqb_refl].
Qed.

Lemma startswith_spec (p s : str) :
  startswith p s = true <-> exists r, s = p ++ r.
Proof.
  revert s. induction p as [|a p IH]; intros s; simpl.
  - split; [intros _; now exists s | reflexivity].
  - destruct s as [|b s].
    + split; [discriminate | intros (r & E); discriminate].
    + rewrite andb_true_iff, Ascii.eqb_eq, IH. split.
      * intros (-> & r & ->). now exists r.
      * intros (r & E). injection E as -> ->. split; [reflexivity | now exists r].
Qed.

Lemma contains_spec (w text : str) : contains w text = true <-> occurs w text.
Proof.
  unfold occurs. induction text as [|c text IH].
  - simpl. rewrite orb_false_r, startswith_spec. split.
    + intros (r & E). exists [], r. exact E.
    + intros (pre & post & E). destruct pre; [|discriminate].
      now exists post.
  - simpl. rewrite orb_true_iff, IH. change (startswith w (c :: text) = true \/
      (exists pre post, text = pre ++ w ++ post) <->
      exists pre post, c :: text = pre ++ w ++ post).
    rewrite startswith_spec. split.
    + intros [(r & E) | (pre & post & E)].
      * exists [], r. exact E.
      * exists (c :: pre), post. simpl. now rewrite E.
    + intros (pre & post & E). destruct pre as [|d pre].
      * left. now exists post.
      * right. injection E as _ E. now exists pre, post.
Qed.

Lemma py_sum_ones {A : Type} (l : list A) :
  py_sum (map (fun _ => 1%Z) l) = Z.of_nat (length l).
Proof.
  unfold py_sum.
  assert (G : forall acc, fold_left Z.add (map (fun _ : A => 1%Z) l) acc
                          = (acc + Z.of_nat (length l))%Z).
  { induction l as [|x l IH]; intros acc; simpl fold_left.
    - simpl. lia.
    - rewrite IH. simpl length. lia. }
  rewrite G. lia.
Qed.

Lemma count_in_length (lexicon : list str) (text : str) :
  count_in lexicon text
  = Z.of_nat (length (filter (fun word => contains word text) lexicon)).
Proof. unfold count_in. apply py_sum_ones. Qed.

Lemma count_in_cons (w : str) (lexicon : list str) (text : str) :
  count_in (w :: lexicon) text
  = ((if contains w text then 1 else 0) + count_in lexicon text)%Z.
Proof.
  rewrite !count_in_length. simpl. destruct (contains w text); simpl length; lia.
Qed.

Lemma count_in_bounds (lexicon : list str) (text : str) :
  (0 <= count_in lexicon text <= Z.of_nat (length lexicon))%Z.
Proof.
  rewrite count_in_length. pose proof (filter_length_le (fun word => contains word text) lexicon).
  lia.
Qed.

Lemma count_in_zero (lexicon : list str) (text : str) :
  (forall w, In w lexicon -> ~ occurs w text) -> count_in lexicon text = 0%Z.
Proof.
  intros H. rewrite count_in_length.
  replace (filter (fun word => contains word text) lexicon) with (@nil str); [reflexivity|].
  symmetry. induction lexicon as [|w l IH]; [reflexivity|]. simpl.
  destruct (contains w text) eqn:E.
  - apply contains_spec in E. exfalso. apply (H w); [now left | exact E].
  - apply IH. intros w' Hw'. apply H. now right.
Qed.

Lemma count_in_pos (lexicon : list str) (w text : str) :
  In w lexicon -> occurs w text -> (0 < count_in lexicon text)%Z.
Proof.
  intros Hin Hocc. rewrite count_in_length.
  assert (Hf : In w (filter (fun word => contains word text) lexicon)).
  { apply filter_In. split; [assumption | now apply contains_spec]. }
  destruct (filter (fun word => contains word text) lexicon); [destruct Hf|].
  simpl length. lia.
Qed.

(** ** The rule-based scorer *)

Lemma rule_based_cases (text : str) :
  let t := lower text in
  let sp := count_in strong_positive t in
  let sn := count_in strong_negative t in
  let pos_mass := (sp * 2 + count_in positive t)%Z in
  let neg_mass := (sn * 2 + count_in negative t)%Z in
  _rule_based_sentiment text =
  if (pos_mass >? neg_mass)%Z then (if (sp >? 0)%Z then 0.8 else 0.5)%Q
  else if (neg_mass >? pos_mass)%Z then (if (sn >? 0)%Z then -0.8 else -0.5)%Q
  else 0.0%Q.
Proof. reflexivity. Qed.

Ltac lexicon_cases Hin :=
  vm_compute in Hin;
  repeat (destruct Hin as [Hin | Hin]; [symmetry in Hin|]);
  [.. | destruct Hin].

Lemma startswith_app_sep (sep : ascii) (w x b : str) :
  Forall (fun c => c <> sep) w ->
  startswith w (x ++ sep :: b) = startswith w x.
Proof.
  intros Hw. revert x. induction Hw as [|c w Hc Hw IH]; intros x; [reflexivity|].
  destruct x as [|d x]; simpl.
  - destruct (Ascii.eqb c sep) eqn:E; [apply Ascii.eqb_eq in E; contradiction | reflexivity].
  - now rewrite IH.
Qed.

Lemma contains_app_sep (sep : ascii) (w a b : str) :
  Forall (fun c => c <> sep) w ->
  contains w (a ++ sep :: b) = contains w a || contains w b.
Proof.
  intros Hw. induction a as [|c a IH].
  - change (contains w ([] ++ sep :: b))
      with (startswith w ([] ++ sep :: b) || contains w b).
    rewrite (startswith_app_sep sep w [] b Hw). simpl. now rewrite orb_false_r.
  - change (contains w ((c :: a) ++ sep :: b))
      with (startswith w ((c :: a) ++ sep :: b) || contains w (a ++ sep :: b)).
    rewrite (startswith_app_sep sep w (c :: a) b Hw), IH. simpl.
    now rewrite orb_assoc.
Qed.

Lemma lexicons_spaceless (w : str) :
  In w lexicons -> Forall (fun c => c <> space) w.
Proof.
  intros Hw. lexicon_cases Hw; subst w;
    repeat (constructor; [intros D; vm_compute in D; discriminate D|]); constructor.
Qed.

Lemma lower_app (a b : str) : lower (a ++ b) = lower a ++ lower b.
Proof. apply map_app. Qed.

Lemma count_in_sep (lexicon : list str) (a b : str) :
  (forall w, In w lexicon -> In w lexicons) ->
  count_in lexicon (a ++ space :: b)
  = Z.of_nat (length (filter (fun w => contains w a || contains w b) lexicon)).
Proof.
  intros Hl. rewrite count_in_length. f_equal. f_equal.
  apply filter_ext_in. intros w Hw.
  apply contains_app_sep, lexicons_spaceless, Hl, Hw.
Qed.

Lemma count_in_repeat (lexicon : list str) (t : str) :
  (forall w, In w lexicon -> In w lexicons) ->
  count_in lexicon (t ++ space :: t) = count_in lexicon t.
Proof.
  intros Hl. rewrite count_in_sep by assumption. rewrite count_in_length.
  f_equal. f_equal. apply filter_ext. intros w. apply orb_diag.
Qed.

(** C10: the score is the decision table over, for each lexicon, the
    number of its words that occur in the lower-cased text: a word counts
    once however often it occurs (a text repeated after a space scores as
    the text itself; "good good good bad" ties at one positive and one
    negative word and scores 0.0), and a word matches wherever its letters
    occur, inside longer words too ("likes" scores 0.5); on "dislike" the
    negative word "dislike" and the positive word "like" both match, the
    masses tie at 1 and the score is 0.0. *)
Theorem rule_based_presence_substring :
  (forall text,
      let present lexicon :=
        Z.of_nat (length (filter (fun w => contains w (lower text)) lexicon)) in
      let pos_mass := (present strong_positive * 2 + present positive)%Z in
      let neg_mass := (present strong_negative * 2 + present negative)%Z in
      _rule_based_sentiment text =
      if (pos_mass >? neg_mass)%Z
      then (if (present strong_positive >? 0)%Z then 0.8 else 0.5)%Q
      else if (neg_mass >? pos_mass)%Z
           then (if (present strong_negative >? 0)%Z then -0.8 else -0.5)%Q
           else 0.0%Q) /\
  (forall lexicon text,
      count_in lexicon text
      = Z.of_nat (length (filter (fun w => contains w text) lexicon)) /\
      (0 <= count_in lexicon text <= Z.of_nat (length lexicon))%Z) /\
  (forall w text, contains w text = true <-> occurs w text) /\
  (forall text,
      _rule_based_sentiment (text ++ space :: text) = _rule_based_sentiment text) /\
  _rule_based_sentiment (lit "good") = 0.5%Q /\
  _rule_based_sentiment (lit "good good good") = 0.5%Q /\
  _rule_based_sentiment (lit "good good good bad") = 0.0%Q /\
  _rule_based_sentiment (lit "likes") = 0.5%Q /\
  count_in positive (lit "dislike") = 1%Z /\
  filter (fun w => contains w (lit "dislike")) positive = [lit "like"] /\
  count_in negative (lit "dislike") = 1%Z /\
  filter (fun w => contains w (lit "dislike")) negative = [lit "dislike"] /\
  count_in strong_positive (lit "dislike") = 0%Z /\
  count_in strong_negative (lit "dislike") = 0%Z /\
  _rule_based_sentiment (lit "dislike") = 0.0%Q.
Proof.
  split; [|split; [|split; [|split]]].
  - intros text. cbv zeta. rewrite rule_based_cases. cbv zeta.
    now rewrite !count_in_length.
  - intros lexicon text. split; [apply count_in_length | apply count_in_bounds].
  - apply contains_spec.
  - intros text. rewrite !rule_based_cases. cbv zeta.
    rewrite lower_app. change (lower (space :: text)) with (space :: lower text).
    rewrite !count_in_repeat; [reflexivity | | | | ]; intros w Hw; unfold lexicons;
      repeat (apply in_or_app; first [now left | right]); try assumption.
  - repeat split; vm_compute; reflexivity.
Qed.

Lemma rule_based_presence_substring_witness :
  occurs (lit "like") (lit "dislike").
Proof.
  apply (proj1 (proj1 (proj2 (proj2 rule_based_presence_substring))
                  (lit "like") (lit "dislike"))).
  vm_compute. reflexivity.
Defined.

Lemma rule_based_range (text : str) :
  In (_rule_based_sentiment text) [0.8; 0.5; -0.8; -0.5; 0.0]%Q.
Proof.
  rewrite rule_based_cases. cbv zeta.
  repeat match goal with |- context [if ?b then _ else _] => destruct b end;
    simpl; tauto.
Qed.

Lemma dict_get_unknown {V : Type} (d : list (str * V)) (k : str) (default : V) :
  ~ In k (map fst d) -> dict_get d k default = default.
Proof.
  induction d as [|[k' v] d IH]; intros H; simpl; [reflexivity|].
  destruct (str_eqb k k') eqn:E.
  - apply str_eqb_eq in E. exfalso. apply H. simpl. now left.
  - apply IH. intros Hin. apply H. simpl. now right.
Qed.

Lemma sentiment_map_range (label : str) :
  In (dict_get sentiment_map label 0.0%Q) [-0.9; -0.6; 0.0; 0.6; 0.9]%Q.
Proof.
  unfold sentiment_map. simpl dict_get.
  repeat match goal with |- context [if ?b then _ else _] => destruct b end;
    simpl; tauto.
Qed.

Ltac score_bound H :=
  destruct H as [H|[H|[H|[H|[H|[]]]]]];
  rewrite <- H; split; unfold Qle; simpl; lia.

(** ** The analyzer *)

Section Analyzer.

Context {features : Type}.
Variable self : EnhancedSentimentAnalyzer features.

Lemma analyze_sentiment_rule_based (text : py_value) :
  model self = None \/ vectorizer self = None ->
  analyze_sentiment self text = Ok (_rule_based_sentiment (clean_text text)).
Proof.
  unfold analyze_sentiment. intros [-> | ->]; [reflexivity|].
  now destruct (model self).
Qed.

Lemma analyze_sentiment_loaded (text : py_value)
    (the_model : features -> result str)
    (the_vectorizer : list str -> result features) :
  model self = Some the_model -> vectorizer self = Some the_vectorizer ->
  analyze_sentiment self text =
  match (x <- the_vectorizer [clean_text text] ;; the_model x) with
  | Ok label => Ok (dict_get sentiment_map label 0.0%Q)
  | Raise _ => Ok (_rule_based_sentiment (clean_text text))
  end.
Proof.
  unfold analyze_sentiment. intros -> ->. cbn [bind try_except].
  destruct (the_vectorizer _) as [x|e]; cbn [bind try_except];
    [destruct (the_model x) as [label|e]; cbn [bind try_except]|]; reflexivity.
Qed.

Lemma analyze_sentiment_returns (text : py_value) :
  exists score, analyze_sentiment self text = Ok score /\
                (-1 <= score)%Q /\ (score <= 1)%Q.
Proof.
  pose proof (rule_based_range (clean_text text)) as Hr.
  destruct (model self) as [m|] eqn:Em; [destruct (vectorizer self) as [v|] eqn:Ev|].
  - rewrite (analyze_sentiment_loaded text m v Em Ev).
    destruct (x <- v [clean_text text] ;; m x) as [label|e].
    + pose proof (sentiment_map_range label) as Hl.
      eexists; split; [reflexivity | score_bound Hl].
    + eexists; split; [reflexivity | score_bound Hr].
  - rewrite analyze_sentiment_rule_based by now right.
    eexists; split; [reflexivity | score_bound Hr].
  - rewrite analyze_sentiment_rule_based by now left.
    eexists; split; [reflexivity | score_bound Hr].
Qed.

(** C5: whatever the text and whatever the artifacts do (absent, present,
    raising), [analyze_sentiment] returns a score, and the score lies in
    [-1.0, 1.0]; when the classifier answers a label that is not a key of
    the category map, the score is 0.0. *)
Theorem analyze_sentiment_in_range (text : py_value) :
  (exists score, analyze_sentiment self text = Ok score /\
                 (-1 <= score)%Q /\ (score <= 1)%Q) /\
  (forall the_model the_vectorizer x label,
      model self = Some the_model -> vectorizer self = Some the_vectorizer ->
      the_vectorizer [clean_text text] = Ok x -> the_model x = Ok label ->
      ~ In label (map fst sentiment_map) ->
      analyze_sentiment self text = Ok 0.0%Q).
Proof.
  split; [apply analyze_sentiment_returns|].
  intros m v x label Hm Hv Hx Hp Hunknown.
  rewrite (analyze_sentiment_loaded text m v Hm Hv), Hx. cbn [bind]. rewrite Hp.
  now rewrite dict_get_unknown.
Qed.

(** C6: with both artifacts loaded, if the vectorizer raises, or the
    classifier raises on what the vectorizer returned, [analyze_sentiment]
    raises nothing and returns the rule-based score of the cleaned text. *)
Theorem analyze_sentiment_falls_back (text : py_value)
    (the_model : features -> result str)
    (the_vectorizer : list str -> result features) :
  model self = Some the_model ->
  vectorizer self = Some the_vectorizer ->
  (exists e, the_vectorizer [clean_text text] = Raise e) \/
  (exists x e, the_vectorizer [clean_text text] = Ok x /\ the_model x = Raise e) ->
  analyze_sentiment self text = Ok (_rule_based_sentiment (clean_text text)).
Proof.
  intros Hm Hv H. rewrite (analyze_sentiment_loaded text _ _ Hm Hv).
  destruct H as [(e & He) | (x & e & Hx & He)].
  - now rewrite He.
  - rewrite Hx. cbn [bind]. now rewrite He.
Qed.

(** C8, as the code has it: a value that is not a string, or the empty
    string, is cleaned to the empty string and [analyze_sentiment] raises
    nothing on it; the score is 0.0 when an artifact is missing or the
    artifacts raise, and otherwise it is the anchor of the label the
    classifier gives the empty text. *)
Theorem analyze_sentiment_malformed (v : py_value) :
  is_str v = false \/ v = PyStr [] ->
  clean_text v = [] /\
  (exists score, analyze_sentiment self v = Ok score) /\
  (model self = None \/ vectorizer self = None ->
   analyze_sentiment self v = Ok 0.0%Q) /\
  (forall the_model the_vectorizer,
      model self = Some the_model -> vectorizer self = Some the_vectorizer ->
      analyze_sentiment self v =
      match (x <- the_vectorizer [[]] ;; the_model x) with
      | Ok label => Ok (dict_get sentiment_map label 0.0%Q)
      | Raise _ => Ok 0.0%Q
      end).
Proof.
  intros Hv.
  assert (Hc : clean_text v = []).
  { destruct Hv as [Hv | ->]; [|reflexivity]. destruct v; try reflexivity; discriminate. }
  split; [exact Hc|]. split; [|split].
  - destruct (analyze_sentiment_returns v) as (score & Hs & _).
    now exists score.
  - intros H. rewrite (analyze_sentiment_rule_based v H), Hc. reflexivity.
  - intros m vz Hm Hvz. rewrite (analyze_sentiment_loaded v m vz Hm Hvz), Hc.
    reflexivity.
Qed.

End Analyzer.

Lemma analyze_sentiment_in_range_witness :
  analyze_sentiment
    {| model := Some (fun _ : unit => Ok (lit "mixed"));
       vectorizer := Some (fun _ => Ok tt) |}
    (PyStr (lit "An excellent day")) = Ok 0.0%Q.
Proof.
  eapply (proj2 (analyze_sentiment_in_range _ (PyStr (lit "An excellent day")))).
  - reflexivity.
  - reflexivity.
  - reflexivity.
  - reflexivity.
  - vm_compute. intros H.
    repeat (destruct H as [H | H]; [discriminate H|]). exact H.
Defined.

Lemma analyze_sentiment_falls_back_witness :
  analyze_sentiment broken_vectorizer (PyStr (lit "Terrible roads!"))
  = Ok (_rule_based_sentiment (clean_text (PyStr (lit "Terrible roads!")))) /\
  analyze_sentiment broken_model (PyStr (lit "Terrible roads!"))
  = Ok (_rule_based_sentiment (clean_text (PyStr (lit "Terrible roads!")))).
Proof.
  split.
  - apply (analyze_sentiment_falls_back broken_vectorizer _
             (fun _ => Ok (lit "positive"))
             (fun _ => Raise (Exception "not fitted"))).
    + reflexivity.
    + reflexivity.
    + left. exists (Exception "not fitted"). reflexivity.
  - apply (analyze_sentiment_falls_back broken_model _
             (fun _ => Raise (Exception "bad shape"))
             (fun _ => Ok tt)).
    + reflexivity.
    + reflexivity.
    + right. exists tt, (Exception "bad shape"). split; reflexivity.
Defined.

Lemma analyze_sentiment_malformed_witness :
  clean_text PyNone = [] /\
  analyze_sentiment rule_based_only PyNone = Ok 0.0%Q /\
  analyze_sentiment broken_vectorizer (PyInt 7) = Ok 0.0%Q.
Proof.
  split; [|split].
  - apply (analyze_sentiment_malformed rule_based_only PyNone). left. reflexivity.
  - apply (analyze_sentiment_malformed rule_based_only PyNone).
    + left. reflexivity.
    + left. reflexivity.
  - rewrite (proj2 (proj2 (proj2
        (analyze_sentiment_malformed broken_vectorizer (PyInt 7) (or_introl eq_refl))))
        (fun _ => Ok (lit "positive")) (fun _ => Raise (Exception "not fitted"))
        eq_refl eq_refl).
    reflexivity.
Defined.

(** C8 as stated fails once artifacts are loaded: on [None] the text is
    cleaned to the empty string, and the classifier's label for it decides
    the score, here 0.6. *)
Lemma malformed_input_scored_by_model :
  is_str PyNone = false /\
  clean_text PyNone = [] /\
  analyze_sentiment always_positive PyNone = Ok 0.6%Q /\
  ~ (0.6 == 0.0)%Q /\
  ~ (forall (self : EnhancedSentimentAnalyzer unit) (v : py_value),
        is_str v = false -> analyze_sentiment self v = Ok 0.0%Q).
Proof.
  split; [reflexivity|]. split; [reflexivity|]. split; [reflexivity|].
  split; [intros H; discriminate H|].
  intros H. specialize (H always_positive PyNone eq_refl). discriminate H.
Qed.

(** ** Normalization on the specification's scenario *)

(** C7: on the scenario string each step of [clean_text] gives the expected
    intermediate text and the result is
    "check this out johndoe economy reform"; the seven steps as the
    specification words and orders them give the same result on it. *)
Theorem clean_text_scenario :
  let raw := lit "Check this out http://x.co @JohnDoe #economy reform!!" in
  let s1 := re_sub pat_url raw in
  let s2 := re_sub (pat_sigil "@"%char) s1 in
  let s3 := re_sub (pat_sigil "#"%char) s2 in
  let s4 := re_sub pat_punct s3 in
  let s5 := lower s4 in
  let s6 := strip s5 in
  let s7 := re_sub pat_spaces s6 in
  s1 = lit "Check this out  @JohnDoe #economy reform!!" /\
  s2 = lit "Check this out  JohnDoe #economy reform!!" /\
  s3 = lit "Check this out  JohnDoe economy reform!!" /\
  s4 = lit "Check this out  JohnDoe economy reform  " /\
  s5 = lit "check this out  johndoe economy reform  " /\
  s6 = lit "check this out  johndoe economy reform" /\
  s7 = lit "check this out johndoe economy reform" /\
  clean_text (PyStr raw) = lit "check this out johndoe economy reform" /\
  normalize_as_specified raw = lit "check this out johndoe economy reform".
Proof. repeat split; vm_compute; reflexivity. Qed.

(** ** Engagement *)

Lemma Ok_inj {A : Type} (a b : A) : Ok a = Ok b -> a = b.
Proof. intros H. now injection H. Qed.

Lemma Some_pair_inj {A B : Type} (a a' : A) (b b' : B) :
  Some (a, b) = Some (a', b') -> a = a' /\ b = b'.
Proof. intros H. injection H as -> ->. now split. Qed.

Lemma Qle_bool_true (x y : Q) : (x <= y)%Q -> Qle_bool x y = true.
Proof. apply Qle_bool_iff. Qed.

Lemma Qle_bool_false (x y : Q) : (y < x)%Q -> Qle_bool x y = false.
Proof.
  intros H. destruct (Qle_bool x y) eqn:E; [|reflexivity].
  apply Qle_bool_iff in E. lra.
Qed.

(** *** Rounding to binary64 *)

Lemma round_div_bounds (n d : Z) :
  (0 < d -> 2 * n - d <= 2 * (Binary64.round_div n d * d) <= 2 * n + d)%Z.
Proof.
  intros Hd. unfold Binary64.round_div.
  pose proof (Z.div_mod n d ltac:(lia)) as E.
  pose proof (Z.mod_pos_bound n d Hd) as B.
  set (q := (n / d)%Z) in *. set (r := (n mod d)%Z) in *.
  assert (E' : n = (q * d + r)%Z) by lia. clearbody q r.
  destruct (Z.compare_spec (2 * r) d) as [C | C | C].
  - destruct (Z.even q); nia.
  - nia.
  - nia.
Qed.

Lemma round_div_floor (n d : Z) :
  (0 < d -> n / d <= Binary64.round_div n d <= n / d + 1)%Z.
Proof.
  intros Hd. unfold Binary64.round_div.
  destruct (2 * (n mod d) ?= d)%Z; [destruct (Z.even (n / d))| |]; lia.
Qed.

Lemma pow2_le (i j : Z) : (0 <= i <= j -> 2 ^ i <= 2 ^ j)%Z.
Proof. intros H. apply Z.pow_le_mono_r; lia. Qed.

(** [ilog2 n d] is the exponent of [n / d]: with [i - j] equal to it,
    [2^i / 2^j <= n / d], and with [i - j] one more, [n / d < 2^i / 2^j]. *)
Lemma ilog2_lower (n d i j : Z) :
  (0 < n -> 0 < d -> 0 <= i -> 0 <= j -> i - j = Binary64.ilog2 n d ->
   d * 2 ^ i <= n * 2 ^ j)%Z.
Proof.
  intros Hn Hd Hi Hj E. unfold Binary64.ilog2 in E.
  destruct (Z.log2_spec n Hn) as [Ln Un]. destruct (Z.log2_spec d Hd) as [Ld Ud].
  pose proof (Z.log2_nonneg n) as Nn. pose proof (Z.log2_nonneg d) as Nd.
  set (ln := Z.log2 n) in *. set (ld := Z.log2 d) in *.
  rewrite <- Z.add_1_r in Un, Ud.
  assert (Pi : (0 < 2 ^ i)%Z) by (apply Z.pow_pos_nonneg; lia).
  assert (Pj : (0 < 2 ^ j)%Z) by (apply Z.pow_pos_nonneg; lia).
  destruct (0 <=? ln - ld)%Z eqn:S.
  - apply Z.leb_le in S. destruct (d * 2 ^ (ln - ld) <=? n)%Z eqn:T.
    + apply Z.leb_le in T. replace i with ((ln - ld) + j)%Z by lia.
      rewrite Z.pow_add_r by lia. nia.
    + assert (A : (d * 2 ^ i < 2 ^ (ld + 1) * 2 ^ i)%Z) by nia.
      rewrite <- Z.pow_add_r in A by lia.
      replace (ld + 1 + i)%Z with (ln + j)%Z in A by lia.
      rewrite Z.pow_add_r in A by lia. nia.
  - apply Z.leb_gt in S. destruct (d <=? n * 2 ^ (- (ln - ld)))%Z eqn:T.
    + apply Z.leb_le in T. replace j with (- (ln - ld) + i)%Z by lia.
      rewrite Z.pow_add_r by lia. nia.
    + assert (A : (d * 2 ^ i < 2 ^ (ld + 1) * 2 ^ i)%Z) by nia.
      rewrite <- Z.pow_add_r in A by lia.
      replace (ld + 1 + i)%Z with (ln + j)%Z in A by lia.
      rewrite Z.pow_add_r in A by lia. nia.
Qed.

Lemma ilog2_upper (n d i j : Z) :
  (0 < n -> 0 < d -> 0 <= i -> 0 <= j -> i - j = Binary64.ilog2 n d + 1 ->
   n * 2 ^ j < d * 2 ^ i)%Z.
Proof.
  intros Hn Hd Hi Hj E. unfold Binary64.ilog2 in E.
  destruct (Z.log2_spec n Hn) as [Ln Un]. destruct (Z.log2_spec d Hd) as [Ld Ud].
  pose proof (Z.log2_nonneg n) as Nn. pose proof (Z.log2_nonneg d) as Nd.
  set (ln := Z.log2 n) in *. set (ld := Z.log2 d) in *.
  rewrite <- Z.add_1_r in Un, Ud.
  assert (Pi : (0 < 2 ^ i)%Z) by (apply Z.pow_pos_nonneg; lia).
  assert (Pj : (0 < 2 ^ j)%Z) by (apply Z.pow_pos_nonneg; lia).
  destruct (0 <=? ln - ld)%Z eqn:S.
  - apply Z.leb_le in S. destruct (d * 2 ^ (ln - ld) <=? n)%Z eqn:T.
    + assert (A : (n * 2 ^ j < 2 ^ (ln + 1) * 2 ^ j)%Z) by nia.
      rewrite <- Z.pow_add_r in A by lia.
      replace (ln + 1 + j)%Z with (ld + i)%Z in A by lia.
      rewrite Z.pow_add_r in A by lia. nia.
    + apply Z.leb_gt in T. replace i with ((ln - ld) + j)%Z by lia.
      rewrite Z.pow_add_r by lia. nia.
  - apply Z.leb_gt in S. destruct (d <=? n * 2 ^ (- (ln - ld)))%Z eqn:T.
    + assert (A : (n * 2 ^ j < 2 ^ (ln + 1) * 2 ^ j)%Z) by nia.
      rewrite <- Z.pow_add_r in A by lia.
      replace (ln + 1 + j)%Z with (ld + i)%Z in A by lia.
      rewrite Z.pow_add_r in A by lia. nia.
    + apply Z.leb_gt in T. replace j with (- (ln - ld) + i)%Z by lia.
      rewrite Z.pow_add_r by lia. nia.
Qed.

(** The quotient of a positive integer below [2^53] by a positive integer,
    rounded to binary64, has the integer quotient as its integer part: the
    rounding never reaches the next integer. *)
Lemma round_pos_quotient (a b : Z) :
  (0 < a < 2 ^ 53)%Z -> (0 < b)%Z ->
  exists v, Binary64.round_pos a b = Some v /\ Qfloor v = (a / b)%Z /\ (0 <= v)%Q.
Proof.
  intros [Ha Ua] Hb. unfold Binary64.round_pos.
  set (e := Binary64.ilog2 a b).
  assert (He : (e <= 52)%Z).
  { destruct (Z.le_gt_cases e 52) as [L | G]; [exact L|]. exfalso.
    pose proof (ilog2_lower a b e 0 Ha Hb ltac:(lia) ltac:(lia) ltac:(fold e; lia)) as L.
    pose proof (pow2_le 53 e ltac:(lia)) as M.
    rewrite Z.pow_0_r in L. nia. }
  set (p := Z.min (52 - e) 1074).
  assert (Hp : (0 <= p)%Z) by (unfold p; lia).
  assert (Tp : (0 <=? p)%Z = true) by (now apply Z.leb_le).
  rewrite Tp.
  assert (HP : (0 < 2 ^ p)%Z) by (apply Z.pow_pos_nonneg; lia).
  set (P := (2 ^ p)%Z) in *.
  set (m := Binary64.round_div (a * P) b).
  set (k := (a / b)%Z).
  assert (Kl : (k * b <= a)%Z) by (unfold k; rewrite Z.mul_comm; apply Z.mul_div_le; lia).
  assert (Ku : (a < (k + 1) * b)%Z).
  { unfold k. rewrite Z.mul_comm. apply Z.mul_succ_div_gt. lia. }
  assert (Kn : (0 <= k)%Z) by (unfold k; apply Z.div_pos; lia).
  assert (Ml : (k * P <= m)%Z).
  { pose proof (round_div_floor (a * P) b Hb) as [F _]. fold m in F.
    assert (k * P <= a * P / b)%Z by (apply Z.div_le_lower_bound; nia). lia. }
  pose proof (round_div_bounds (a * P) b Hb) as [_ B]. fold m in B.
  assert (Mu : (m < (k + 1) * P)%Z).
  { destruct (Z.le_gt_cases (52 - e) 1074) as [C | C].
    - assert (Ep : p = (52 - e)%Z) by (unfold p; lia).
      pose proof (ilog2_lower a b 52 p Ha Hb ltac:(lia) Hp ltac:(fold e; lia)) as L.
      fold P in L.
      assert (b * 2 ^ 52 < 2 ^ 53 * P)%Z by nia.
      assert (Hb2 : (b < 2 * P)%Z).
      { change (2 ^ 53)%Z with (2 * 2 ^ 52)%Z in *. set (c := (2 ^ 52)%Z) in *.
        assert (0 < c)%Z by (unfold c; lia). nia. }
      nia.
    - assert (Ep : p = 1074%Z) by (unfold p; lia).
      pose proof (ilog2_upper a b 0 (- (e + 1)) Ha Hb ltac:(lia) ltac:(lia)
                    ltac:(fold e; lia)) as U.
      rewrite Z.pow_0_r in U.
      pose proof (pow2_le 1022 (- (e + 1)) ltac:(lia)) as M.
      assert (A : (a * 2 ^ 1022 < b)%Z) by nia.
      assert (k = 0%Z).
      { unfold k. apply Z.div_small. set (c := (2 ^ 1022)%Z) in *.
        assert (0 < c)%Z by (unfold c; lia). nia. }
      assert (EP : P = (2 ^ 1022 * 2 ^ 52)%Z).
      { unfold P. rewrite Ep. rewrite <- Z.pow_add_r by lia. reflexivity. }
      assert (2 ^ 52 + 1 < P)%Z.
      { rewrite EP. set (c := (2 ^ 1022)%Z).
        assert (2 <= c)%Z by (unfold c; apply (pow2_le 1 1022); lia). nia. }
      assert (a * P < b * 2 ^ 52)%Z.
      { rewrite EP. set (c := (2 ^ 1022)%Z) in *. set (c' := (2 ^ 52)%Z).
        assert (0 < c')%Z by (unfold c'; lia). nia. }
      assert (2 * m < 2 * 2 ^ 52 + 1)%Z.
      { set (c' := (2 ^ 52)%Z) in *. nia. }
      subst k. lia. }
  set (v := Qmake m (Z.to_pos P)).
  assert (Ev : Z.pos (Z.to_pos P) = P) by (apply Z2Pos.id; exact HP).
  assert (Fv : Qfloor v = k).
  { unfold v, Qfloor. rewrite Ev. symmetry.
    apply (Z.div_unique m P k (m - k * P)); [left; lia | lia]. }
  assert (Nv : (0 <= v)%Q).
  { unfold v, Qle. simpl. nia. }
  assert (Ov : Qle_bool (inject_Z (2 ^ 1024)) v = false).
  { apply Qle_bool_false. unfold v, Qlt, inject_Z. cbn [Qnum Qden]. rewrite Ev.
    assert (k + 1 <= 2 ^ 53)%Z by lia.
    assert (m * 1 < 2 ^ 53 * P)%Z by nia.
    assert (2 ^ 53 * P <= 2 ^ 1024 * P)%Z.
    { apply Z.mul_le_mono_nonneg_r; [lia | apply (pow2_le 53 1024); lia]. }
    lia. }
  rewrite Ov. exists (Qred v). split; [reflexivity|]. split.
  - rewrite (Qfloor_comp _ _ (Qred_correct v)). exact Fv.
  - rewrite (Qred_correct v). exact Nv.
Qed.

(** *** Engagement *)

(** True division of an integer below [2^53] in magnitude by a positive
    integer, followed by [int]: the quotient truncated toward zero. *)
Lemma truediv_int (a b : Z) :
  (Z.abs a < 2 ^ 53)%Z -> (0 < b)%Z ->
  (q <- truediv a b ;; float_int q) = Ok (a ÷ b)%Z.
Proof.
  intros Ha Hb. unfold truediv.
  assert (Hz : (b =? 0)%Z = false) by (apply Z.eqb_neq; lia). rewrite Hz.
  destruct b as [|d|d]; try lia.
  unfold Binary64.round64, Qdiv, Qinv, Qmult, inject_Z. cbn [Qnum Qden].
  rewrite Z.mul_1_r, Pos.mul_1_l.
  destruct a as [|n|n].
  - reflexivity.
  - destruct (round_pos_quotient (Z.pos n) (Z.pos d)) as (v & E & F & N); [lia | lia|].
    rewrite E. cbn [bind float_int]. unfold py_int.
    rewrite (Qle_bool_true 0 v N), F. f_equal. symmetry.
    apply Z.quot_div_nonneg; lia.
  - destruct (round_pos_quotient (Z.pos n) (Z.pos d)) as (v & E & F & N); [lia | lia|].
    rewrite E. cbn [bind float_int]. unfold py_int. f_equal.
    assert (Q : (Z.neg n ÷ Z.pos d = - (Z.pos n / Z.pos d))%Z).
    { change (Z.neg n) with (- Z.pos n)%Z. rewrite Z.quot_opp_l by lia.
      f_equal. apply Z.quot_div_nonneg; lia. }
    rewrite Q, <- F.
    destruct (Qle_bool 0 (- v)) eqn:S.
    + apply Qle_bool_iff in S. assert (Z0 : (v == 0)%Q) by lra.
      rewrite (Qfloor_comp (- v) 0), (Qfloor_comp v 0); [reflexivity | exact Z0|].
      rewrite Z0. reflexivity.
    + unfold Qceiling. now rewrite Qopp_involutive.
Qed.

Lemma average_nonempty (xs : list Z) :
  xs <> [] -> (Z.abs (py_sum xs) < 2 ^ 53)%Z ->
  average xs = Ok (py_sum xs ÷ len xs)%Z.
Proof.
  intros H B. destruct xs as [|x xs]; [contradiction|]. unfold average.
  apply truediv_int; [exact B|]. unfold len. simpl length. lia.
Qed.

Lemma qfloor_quot (a b : Z) :
  (0 < b)%Z -> Qfloor (inject_Z a / inject_Z b) = (a / b)%Z.
Proof.
  intros Hb. destruct b as [|p|p]; try lia.
  unfold Qdiv, Qinv, Qmult, inject_Z, Qfloor.
  cbn [Qnum Qden]. now rewrite !Z.mul_1_r, Pos.mul_1_l.
Qed.

(** C9, as the code has it: on a non-empty sample whose like and retweet
    sums are below [2^53] in magnitude (the integers a float holds
    exactly) the summary is computed without error, the two averages are
    the means truncated toward zero ([int] of the float quotient, which is
    the floor of the mean when the sum is not negative), and the reach is
    the likes plus twice the retweets. *)
Theorem engagement_summary (sample : list row) :
  sample <> [] ->
  let n := len sample in
  let sum_likes := py_sum (map likes sample) in
  let sum_retweets := py_sum (map retweets sample) in
  (Z.abs sum_likes < 2 ^ 53)%Z ->
  (Z.abs sum_retweets < 2 ^ 53)%Z ->
  exists e,
    engagement_of sample = Ok e /\
    avg_likes e = (sum_likes ÷ n)%Z /\
    avg_retweets e = (sum_retweets ÷ n)%Z /\
    total_reach e = (sum_likes + 2 * sum_retweets)%Z /\
    ((0 <= sum_likes)%Z -> avg_likes e = Qfloor (mean (map likes sample))) /\
    ((0 <= sum_retweets)%Z -> avg_retweets e = Qfloor (mean (map retweets sample))).
Proof.
  intros Hne n sl sr Bl Br.
  assert (Hn : (0 < n)%Z).
  { unfold n, len. destruct sample; [contradiction | simpl length; lia]. }
  assert (Hl : len (map likes sample) = n) by (unfold n, len; now rewrite length_map).
  assert (Hr : len (map retweets sample) = n) by (unfold n, len; now rewrite length_map).
  assert (Al : average (map likes sample) = Ok (sl ÷ n)%Z).
  { rewrite average_nonempty, Hl; [reflexivity | now destruct sample | exact Bl]. }
  assert (Ar : average (map retweets sample) = Ok (sr ÷ n)%Z).
  { rewrite average_nonempty, Hr; [reflexivity | now destruct sample | exact Br]. }
  eexists. split.
  - unfold engagement_of. rewrite Al, Ar. cbn [bind]. reflexivity.
  - cbn [avg_likes avg_retweets total_reach]. fold sl. fold sr.
    split; [reflexivity|]. split; [reflexivity|]. split; [lia|]. split.
    + intros H. unfold mean. fold sl. rewrite Hl, qfloor_quot by assumption.
      apply Z.quot_div_nonneg; lia.
    + intros H. unfold mean. fold sr. rewrite Hr, qfloor_quot by assumption.
      apply Z.quot_div_nonneg; lia.
Qed.

Lemma engagement_summary_witness :
  exists e, engagement_of (map row_of_likes [1; 2; 2]%Z) = Ok e /\
            avg_likes e = (5 ÷ 3)%Z.
Proof.
  destruct (engagement_summary (map row_of_likes [1; 2; 2]%Z)) as (e & He & Hl & _).
  - intros H. discriminate H.
  - vm_compute. reflexivity.
  - vm_compute. reflexivity.
  - exists e. split; [exact He | exact Hl].
Defined.

(** C9 as stated fails: for likes 1, 2, 2 the mean is 5/3, which rounds to
    2, and the code reports 1. *)
Lemma avg_likes_truncates :
  let sample := map row_of_likes [1; 2; 2]%Z in
  sample <> [] /\
  engagement_of sample = Ok {| avg_likes := 1; avg_retweets := 0; total_reach := 5 |} /\
  py_round (mean (map likes sample)) = 2%Z /\
  (forall e, engagement_of sample = Ok e ->
             avg_likes e <> py_round (mean (map likes sample))).
Proof.
  split; [intros H; discriminate H|].
  split; [reflexivity|]. split; [reflexivity|].
  intros e He. vm_compute in He. injection He as <-. intros H. discriminate H.
Qed.

(** ** Vote shares *)

(** *** One rounding *)

(** Between [2^-1022] and [2^1023] rounding is off by at most [2^-53] of the
    value. *)
Lemma round_pos_rel (n d : Z) :
  (0 < n)%Z -> (0 < d)%Z -> (d <= n * 2 ^ 1022)%Z -> (n < d * 2 ^ 1023)%Z ->
  exists v, Binary64.round_pos n d = Some v /\
            ((1 - eps64) * (n # Z.to_pos d) <= v)%Q /\
            (v <= (1 + eps64) * (n # Z.to_pos d))%Q.
Proof.
  intros Hn Hd Lo Hi. unfold Binary64.round_pos.
  set (e := Binary64.ilog2 n d).
  assert (El : (-1022 <= e)%Z).
  { destruct (Z.le_gt_cases (-1022) e) as [L | G]; [exact L|]. exfalso.
    pose proof (ilog2_upper n d 0 (- (e + 1)) Hn Hd ltac:(lia) ltac:(lia)
                  ltac:(fold e; lia)) as U.
    rewrite Z.pow_0_r in U.
    pose proof (pow2_le 1022 (- (e + 1)) ltac:(lia)) as M. nia. }
  assert (Eu : (e <= 1022)%Z).
  { destruct (Z.le_gt_cases e 1022) as [L | G]; [exact L|]. exfalso.
    pose proof (ilog2_lower n d e 0 Hn Hd ltac:(lia) ltac:(lia) ltac:(fold e; lia)) as L.
    rewrite Z.pow_0_r in L.
    pose proof (pow2_le 1023 e ltac:(lia)) as M. nia. }
  replace (Z.min (52 - e) 1074) with (52 - e)%Z by lia.
  set (p := (52 - e)%Z).
  assert (Ed : Z.pos (Z.to_pos d) = d) by (apply Z2Pos.id; exact Hd).
  destruct (0 <=? p)%Z eqn:Tp.
  - apply Z.leb_le in Tp.
    assert (HP : (0 < 2 ^ p)%Z) by (apply Z.pow_pos_nonneg; lia).
    pose proof (ilog2_lower n d 52 p Hn Hd ltac:(lia) Tp ltac:(fold e; lia)) as L.
    set (P := (2 ^ p)%Z) in *.
    pose proof (round_div_bounds (n * P) d Hd) as [B1 B2].
    set (m := Binary64.round_div (n * P) d) in *.
    assert (EP : Z.pos (Z.to_pos P) = P) by (apply Z2Pos.id; exact HP).
    set (v := Qmake m (Z.to_pos P)).
    assert (Ov : Qle_bool (inject_Z (2 ^ 1024)) v = false).
    { apply Qle_bool_false. unfold v, Qlt, inject_Z. cbn [Qnum Qden]. rewrite EP.
      change (2 ^ 1024)%Z with (2 * 2 ^ 1023)%Z. set (c := (2 ^ 1023)%Z) in *.
      assert (0 < c)%Z by (unfold c; lia).
      assert (n * P < d * (c * P))%Z by nia.
      assert (2 * (m * d) < d * (2 * (c * P) + 1))%Z by nia.
      assert (2 * m < 2 * (c * P) + 1)%Z by nia.
      assert (0 < c * P)%Z by nia. lia. }
    rewrite Ov. exists (Qred v). split; [reflexivity|].
    rewrite (Qred_correct v). unfold v, eps64, Qle, Qmult, Qminus, Qplus, Qopp.
    cbn [Qnum Qden]. rewrite !Pos2Z.inj_mul, Ed, EP.
    change (Z.pos (2 ^ 53)) with (2 * 2 ^ 52)%Z.
    set (c := (2 ^ 52)%Z) in *. assert (0 < c)%Z by (unfold c; lia).
    set (X := (m * d)%Z) in *. set (Y := (n * P)%Z) in *.
    split; nia.
  - apply Z.leb_gt in Tp.
    assert (HS : (0 < 2 ^ (- p))%Z) by (apply Z.pow_pos_nonneg; lia).
    pose proof (ilog2_lower n d (52 + - p) 0 Hn Hd ltac:(lia) ltac:(lia)
                  ltac:(fold e; lia)) as L.
    rewrite Z.pow_0_r, Z.pow_add_r in L by lia.
    pose proof (pow2_le (- p) 970 ltac:(lia)) as SU.
    set (S := (2 ^ (- p))%Z) in *.
    assert (HdS : (0 < d * S)%Z) by nia.
    pose proof (round_div_bounds n (d * S) HdS) as [B1 B2].
    set (m := Binary64.round_div n (d * S)) in *.
    set (v := inject_Z (m * S)).
    assert (Ov : Qle_bool (inject_Z (2 ^ 1024)) v = false).
    { apply Qle_bool_false. unfold v, Qlt, inject_Z. cbn [Qnum Qden].
      change (2 ^ 1024)%Z with (2 * 2 ^ 1023)%Z. set (c := (2 ^ 1023)%Z) in *.
      assert (2 ^ 970 < c)%Z by (unfold c; apply Z.pow_lt_mono_r; lia).
      assert (0 < c)%Z by lia.
      assert (2 * (m * S * d) < d * (2 * c + S))%Z by nia.
      assert (2 * (m * S) < 2 * c + S)%Z by nia.
      lia. }
    rewrite Ov. exists (Qred v). split; [reflexivity|].
    rewrite (Qred_correct v). unfold v, eps64, Qle, Qmult, Qminus, Qplus, Qopp, inject_Z.
    cbn [Qnum Qden]. rewrite ?Pos2Z.inj_mul, ?Ed.
    change (Z.pos (2 ^ 53)) with (2 * 2 ^ 52)%Z.
    set (c := (2 ^ 52)%Z) in *. assert (0 < c)%Z by (unfold c; lia).
    set (X := (m * S * d)%Z) in *. set (Y := (d * S)%Z) in *.
    assert (EX : (m * Y = X)%Z) by (unfold X, Y; ring).
    split; nia.
Qed.

Lemma round64_zero (q : Q) : (q == 0)%Q -> Binary64.round64 q = Binary64.Finite 0.
Proof.
  intros H. unfold Binary64.round64. unfold Qeq in H. simpl in H.
  rewrite Z.mul_1_r in H. now rewrite H.
Qed.

Lemma round64_near (q : Q) :
  (q == 0 \/ (tiny64 <= q /\ q < huge64))%Q ->
  exists v, Binary64.round64 q = Binary64.Finite v /\
            ((1 - eps64) * q <= v)%Q /\ (v <= (1 + eps64) * q)%Q.
Proof.
  intros [Z | [Lo Hi]].
  - exists 0%Q. split; [now apply round64_zero|]. rewrite Z. split; lra.
  - destruct q as [n d]. unfold Binary64.round64. cbn [Qnum Qden].
    unfold tiny64, huge64, Qle, Qlt, inject_Z in Lo, Hi. cbn [Qnum Qden] in Lo, Hi.
    rewrite Pos2Z.inj_pow in Lo. rewrite Z.mul_1_l in Lo. rewrite Z.mul_1_r in Hi.
    destruct n as [|n|n]; [exfalso; lia | | exfalso; lia].
    destruct (round_pos_rel (Z.pos n) (Z.pos d)) as (v & E & B1 & B2); try lia.
    rewrite E. exists v. split; [reflexivity|].
    rewrite Pos2Z.id in B1, B2. split; assumption.
Qed.

(** The constants of the analysis as numerals, for linear arithmetic. *)
Ltac numeral c :=
  let t := eval vm_compute in c in change c with t in *.

Ltac numerals :=
  numeral tiny64; numeral huge64; numeral tame_low; numeral tame_high;
  numeral share_low; numeral eps64.

(** *** The shares of three tame averages *)

Lemma float_sum3 (a1 a2 a3 : Q) :
  tame_abs a1 -> tame_abs a2 -> tame_abs a3 ->
  exists t,
    float_sum [Binary64.Finite a1; Binary64.Finite a2; Binary64.Finite a3]
    = Binary64.Finite t /\
    ((1 - 4 * eps64) * (a1 + a2 + a3) <= t)%Q /\
    (t <= (1 + 4 * eps64) * (a1 + a2 + a3))%Q.
Proof.
  intros [N1 O1] [N2 O2] [N3 O3]. unfold float_sum. cbn [fold_left Binary64.add].
  destruct (round64_near (0 + a1)) as (v1 & E1 & L1 & U1).
  { numerals. destruct O1 as [Z | [L H]]; [left | right; split]; lra. }
  rewrite E1. cbn [Binary64.add].
  destruct (round64_near (v1 + a2)) as (v2 & E2 & L2 & U2).
  { numerals. destruct O1 as [Z1 | [Lo1 Hi1]], O2 as [Z2 | [Lo2 Hi2]];
      [left | right; split | right; split | right; split]; lra. }
  rewrite E2. cbn [Binary64.add].
  destruct (round64_near (v2 + a3)) as (v3 & E3 & L3 & U3).
  { numerals.
    destruct O1 as [Z1 | [Lo1 Hi1]], O2 as [Z2 | [Lo2 Hi2]], O3 as [Z3 | [Lo3 Hi3]];
      [left | right; split | right; split | right; split
       | right; split | right; split | right; split | right; split]; lra. }
  rewrite E3. exists v3. split; [reflexivity|]. numerals. split; lra.
Qed.

Lemma Qeq_bool_pos (t : Q) : (0 < t)%Q -> Qeq_bool t 0 = false.
Proof.
  intros Ht. destruct (Qeq_bool t 0) eqn:E; [|reflexivity].
  apply Qeq_bool_eq in E. lra.
Qed.

Lemma share_near (a t : Q) :
  tame_abs a -> (0 < t)%Q -> (a <= 2 * t)%Q -> (t <= 4 * tame_high)%Q ->
  exists s,
    (q <- float_div (Binary64.Finite a) (Binary64.Finite t) ;;
     Ok (Binary64.mul q (Binary64.Finite 100))) = Ok (Binary64.Finite s) /\
    ((1 - 3 * eps64) * (100 * (a / t)) <= s)%Q /\
    (s <= (1 + 3 * eps64) * (100 * (a / t)))%Q /\
    (s == 0 \/ share_low <= s)%Q.
Proof.
  intros [N O] Ht Hat Hth. unfold float_div. cbn [Binary64.is_zero].
  rewrite (Qeq_bool_pos t Ht). cbn [bind Binary64.div].
  assert (Xn : (0 <= a / t)%Q) by (apply Qle_shift_div_l; [exact Ht | lra]).
  assert (Xu : (a / t <= 2)%Q) by (apply Qle_shift_div_r; [exact Ht | lra]).
  assert (Xo : (a / t == 0 \/ (1 # (2 ^ 1002)%positive) <= a / t)%Q).
  { destruct O as [Z | [L H]].
    - left. rewrite Z. unfold Qdiv. ring.
    - right. apply Qle_shift_div_l; [exact Ht|].
      numerals. numeral (1 # (2 ^ 1002)%positive). lra. }
  set (X := (a / t)%Q) in *.
  destruct (round64_near X) as (q & E & L & U).
  { numerals. numeral (1 # (2 ^ 1002)%positive).
    destruct Xo as [Z | Lo]; [left | right; split]; lra. }
  rewrite E. cbn [Binary64.mul].
  destruct (round64_near (q * 100)) as (s & E' & L' & U').
  { numerals. numeral (1 # (2 ^ 1002)%positive).
    destruct Xo as [Z | Lo]; [left | right; split]; lra. }
  rewrite E'. exists s. split; [reflexivity|]. numerals.
  numeral (1 # (2 ^ 1002)%positive).
  split; [lra|]. split; [lra|]. destruct Xo as [Z | Lo]; [left | right]; lra.
Qed.

Lemma tame_magnitude (x : Q) :
  tame x -> tame_abs (Qabs x) /\ ((Qabs x == 0)%Q -> (x == 0)%Q).
Proof.
  intros [Z | B].
  - split; [split; [apply Qabs_nonneg | left; now rewrite Z]|]. intros _. exact Z.
  - split; [split; [apply Qabs_nonneg | now right]|].
    intros Z. exfalso. destruct B as [B _]. rewrite Z in B. numerals.
    unfold Qle in B. simpl in B. lia.
Qed.

Lemma tame_abs_high (a : Q) : tame_abs a -> (a <= tame_high)%Q.
Proof.
  intros [Na [Za | [_ Ha]]]; [|exact Ha]. rewrite Za. numerals.
  unfold Qle. simpl. lia.
Qed.

(** The shares of three tame averages, not all zero: finite, not negative,
    zero or above [share_low], and within [10^-9] of 100 in total. *)
Lemma shares3 (x1 x2 x3 : Q) :
  tame x1 -> tame x2 -> tame x3 ->
  let values := [Binary64.Finite x1; Binary64.Finite x2; Binary64.Finite x3] in
  let total := float_sum (map Binary64.abs values) in
  ((x1 == 0 /\ x2 == 0 /\ x3 == 0)%Q -> Binary64.is_zero total = true) /\
  (~ (x1 == 0 /\ x2 == 0 /\ x3 == 0)%Q ->
   Binary64.is_zero total = false /\
   exists s1 s2 s3,
     share_percentages values total
     = Ok [Binary64.Finite s1; Binary64.Finite s2; Binary64.Finite s3] /\
     (0 <= s1 /\ 0 <= s2 /\ 0 <= s3)%Q /\
     ((s1 == 0 \/ share_low <= s1) /\ (s2 == 0 \/ share_low <= s2) /\
      (s3 == 0 \/ share_low <= s3))%Q /\
     (Qabs (s1 + s2 + s3 - 100) <= 1 # 1000000000)%Q).
Proof.
  intros T1 T2 T3.
  destruct (tame_magnitude x1 T1) as [A1 Z1]. destruct (tame_magnitude x2 T2) as [A2 Z2].
  destruct (tame_magnitude x3 T3) as [A3 Z3].
  cbn [map Binary64.abs]. cbv zeta.
  set (a1 := Qabs x1) in *. set (a2 := Qabs x2) in *. set (a3 := Qabs x3) in *.
  destruct (float_sum3 a1 a2 a3 A1 A2 A3) as (t & Et & Lt & Ut).
  rewrite Et. cbn [Binary64.is_zero].
  pose proof A1 as [N1 O1]. pose proof A2 as [N2 O2]. pose proof A3 as [N3 O3].
  split.
  - intros (H1 & H2 & H3).
    assert (a1 == 0)%Q by (unfold a1; rewrite H1; reflexivity).
    assert (a2 == 0)%Q by (unfold a2; rewrite H2; reflexivity).
    assert (a3 == 0)%Q by (unfold a3; rewrite H3; reflexivity).
    apply Qeq_eq_bool. numerals. lra.
  - intros Hnz.
    assert (Low : (tame_low <= a1 + a2 + a3)%Q).
    { destruct O1 as [E1 | [L1 _]]; [|lra]. destruct O2 as [E2 | [L2 _]]; [|lra].
      destruct O3 as [E3 | [L3 _]]; [|lra]. exfalso. apply Hnz. auto. }
    pose proof (tame_abs_high a1 A1). pose proof (tame_abs_high a2 A2).
    pose proof (tame_abs_high a3 A3).
    assert (Ht : (0 < t)%Q) by (numerals; lra).
    split; [exact (Qeq_bool_pos t Ht)|].
    destruct (share_near a1 t A1 Ht) as (s1 & E1 & L1 & U1 & F1); [numerals; lra ..|].
    destruct (share_near a2 t A2 Ht) as (s2 & E2 & L2 & U2 & F2); [numerals; lra ..|].
    destruct (share_near a3 t A3 Ht) as (s3 & E3 & L3 & U3 & F3); [numerals; lra ..|].
    exists s1, s2, s3. split.
    + unfold share_percentages. cbn [comprehension Binary64.abs]. fold a1 a2 a3.
      cbn [bind] in E1, E2, E3 |- *.
      rewrite E1. cbn [bind]. rewrite E2. cbn [bind]. rewrite E3. reflexivity.
    + assert (Xn : forall a, (0 <= a -> 0 <= a / t)%Q).
      { intros a Ha. apply Qle_shift_div_l; [exact Ht | lra]. }
      pose proof (Xn a1 N1). pose proof (Xn a2 N2). pose proof (Xn a3 N3).
      assert (R : (a1 / t + a2 / t + a3 / t == (a1 + a2 + a3) / t)%Q) by (field; lra).
      assert (Rl : (1 - 5 * eps64 <= (a1 + a2 + a3) / t)%Q).
      { apply Qle_shift_div_l; [exact Ht|]. numerals. lra. }
      assert (Ru : ((a1 + a2 + a3) / t <= 1 + 5 * eps64)%Q).
      { apply Qle_shift_div_r; [exact Ht|]. numerals. lra. }
      set (X1 := (a1 / t)%Q) in *. set (X2 := (a2 / t)%Q) in *.
      set (X3 := (a3 / t)%Q) in *. set (S := ((a1 + a2 + a3) / t)%Q) in *.
      split; [numerals; repeat split; lra|]. split; [tauto|].
      numerals. apply Qabs_Qle_condition. split; lra.
Qed.

(** *** Projected votes *)

(** The votes of a share that is zero or above [share_low], and at most
    101: the exact product [200000 * share] up to two roundings, then its
    integer part. *)
Lemma projected_votes_near (s : Q) :
  (0 <= s)%Q -> (s <= 101)%Q -> (s == 0 \/ share_low <= s)%Q ->
  exists v,
    projected_votes (Binary64.Finite s) = Ok v /\
    (0 <= v)%Z /\
    (inject_Z v <= (1 + 3 * eps64) * (200000 * s))%Q /\
    ((1 - 3 * eps64) * (200000 * s) - 1 < inject_Z v)%Q.
Proof.
  intros N U O. unfold projected_votes, float_div. cbn [Binary64.is_zero].
  change (Qeq_bool 100 0) with false. cbn [bind Binary64.div].
  destruct (round64_near (s / 100)) as (q & E & Lq & Uq).
  { numerals. unfold Qdiv. change (/ 100)%Q with (1 # 100)%Q.
    destruct O as [Z | Lo]; [left | right; split]; lra. }
  rewrite E. cbn [Binary64.mul]. change (inject_Z total_votes) with 20000000%Q.
  unfold Qdiv in Lq, Uq. change (/ 100)%Q with (1 # 100)%Q in Lq, Uq.
  destruct (round64_near (20000000 * q)) as (y & E' & Ly & Uy).
  { numerals. destruct O as [Z | Lo]; [left | right; split]; lra. }
  rewrite E'. cbn [float_int]. unfold py_int.
  assert (Ny : (0 <= y)%Q) by (numerals; lra).
  rewrite (Qle_bool_true 0 y Ny).
  pose proof (Qfloor_le y) as Fl. pose proof (Qlt_floor y) as Fu.
  rewrite inject_Z_plus in Fu. change (inject_Z 1) with 1%Q in Fu.
  exists (Qfloor y). split; [reflexivity|]. split.
  - assert (Hz : (-(1) < inject_Z (Qfloor y))%Q) by lra.
    unfold Qlt, inject_Z in Hz. simpl in Hz. lia.
  - numerals. split; lra.
Qed.

(** *** The cross-candidate step *)

Lemma share_percentages_returns (values : list Binary64.float) (total : Binary64.float) :
  Binary64.is_zero total = false ->
  exists percentages, share_percentages values total = Ok percentages.
Proof.
  intros H. unfold share_percentages.
  induction values as [|sv rest (percentages & IH)]; [now exists []|].
  cbn [comprehension]. unfold float_div at 1. rewrite H. cbn [bind].
  rewrite IH. cbn [bind]. eexists. reflexivity.
Qed.

(** The step raises nothing, whatever the averages: the only division is
    by a total that has just been compared with zero. *)
Lemma vote_shares_returns (sentiment_values ml_sentiment_values : list Binary64.float) :
  exists shares, vote_shares sentiment_values ml_sentiment_values = Ok shares.
Proof.
  unfold vote_shares.
  destruct (Binary64.is_zero (float_sum (map Binary64.abs ml_sentiment_values))) eqn:Eml.
  - destruct (Binary64.is_zero (float_sum (map Binary64.abs sentiment_values))) eqn:Est.
    + eexists. reflexivity.
    + destruct (share_percentages_returns sentiment_values _ Est) as (l & E).
      rewrite E. eexists. reflexivity.
  - destruct (share_percentages_returns ml_sentiment_values _ Eml) as (l & E).
    rewrite E. eexists. reflexivity.
Qed.


(** A run on tame averages: three finite shares within [10^-9] of 100 in
    total, the default split when all six averages are zero, and three
    vote counts that add up to the electorate less at most 3. *)
Lemma tame_run (x y z x' y' z' : Q) :
  tame x -> tame y -> tame z -> tame x' -> tame y' -> tame z' ->
  exists qt qa qo vt va vo,
    vote_shares [Binary64.Finite x; Binary64.Finite y; Binary64.Finite z]
                [Binary64.Finite x'; Binary64.Finite y'; Binary64.Finite z']
    = Ok (Binary64.Finite qt, Binary64.Finite qa, Binary64.Finite qo) /\
    (0 <= qt /\ 0 <= qa /\ 0 <= qo)%Q /\
    (Qabs (qt + qa + qo - 100) <= 1 # 1000000000)%Q /\
    ((x == 0 /\ y == 0 /\ z == 0 /\ x' == 0 /\ y' == 0 /\ z' == 0)%Q ->
     (qt, qa, qo) = (40, 35, 25)%Q) /\
    projected_votes (Binary64.Finite qt) = Ok vt /\
    projected_votes (Binary64.Finite qa) = Ok va /\
    projected_votes (Binary64.Finite qo) = Ok vo /\
    (0 <= vt /\ 0 <= va /\ 0 <= vo)%Z /\
    (19999997 <= vt + va + vo <= 20000000)%Z.
Proof.
  intros Tx Ty Tz Tx' Ty' Tz'.
  assert (Votes : forall s1 s2 s3,
    (0 <= s1 /\ 0 <= s2 /\ 0 <= s3)%Q ->
    ((s1 == 0 \/ share_low <= s1) /\ (s2 == 0 \/ share_low <= s2) /\
     (s3 == 0 \/ share_low <= s3))%Q ->
    (Qabs (s1 + s2 + s3 - 100) <= 1 # 1000000000)%Q ->
    exists vt va vo,
      projected_votes (Binary64.Finite s1) = Ok vt /\
      projected_votes (Binary64.Finite s2) = Ok va /\
      projected_votes (Binary64.Finite s3) = Ok vo /\
      (0 <= vt /\ 0 <= va /\ 0 <= vo)%Z /\
      (19999997 <= vt + va + vo <= 20000000)%Z).
  { intros s1 s2 s3 (N1 & N2 & N3) (F1 & F2 & F3) S.
    apply Qabs_Qle_condition in S. destruct S as [Sl Su].
    destruct (projected_votes_near s1 N1 ltac:(lra) F1) as (vt & Et & Pt & Ut & Lt).
    destruct (projected_votes_near s2 N2 ltac:(lra) F2) as (va & Ea & Pa & Ua & La).
    destruct (projected_votes_near s3 N3 ltac:(lra) F3) as (vo & Eo & Po & Uo & Lo).
    exists vt, va, vo. repeat split; try assumption.
    - assert (H : (19999996 < inject_Z (vt + va + vo))%Q).
      { rewrite !inject_Z_plus. numerals. lra. }
      unfold Qlt, inject_Z in H. simpl in H. lia.
    - assert (H : (inject_Z (vt + va + vo) < 20000001)%Q).
      { rewrite !inject_Z_plus. numerals. lra. }
      unfold Qlt, inject_Z in H. simpl in H. lia. }
  destruct (shares3 x' y' z' Tx' Ty' Tz') as [Zml Nml].
  destruct (shares3 x y z Tx Ty Tz) as [Zst Nst].
  cbv zeta in Zml, Nml, Zst, Nst. unfold vote_shares.
  assert (D : forall a b c : Q,
             (a == 0 /\ b == 0 /\ c == 0)%Q \/ ~ (a == 0 /\ b == 0 /\ c == 0)%Q).
  { intros a b c. destruct (Qeq_dec a 0), (Qeq_dec b 0), (Qeq_dec c 0); tauto. }
  destruct (D x' y' z') as [Aml | Bml].
  - rewrite (Zml Aml). destruct (D x y z) as [Ast | Bst].
    + rewrite (Zst Ast).
      exists 40%Q, 35%Q, 25%Q, 8000000%Z, 7000000%Z, 5000000%Z.
      split; [reflexivity|]. split; [repeat split; unfold Qle; simpl; lia|].
      split; [vm_compute; discriminate|]. split; [reflexivity|].
      split; [vm_compute; reflexivity|]. split; [vm_compute; reflexivity|].
      split; [vm_compute; reflexivity|]. lia.
    + destruct (Nst Bst) as (Zt & s1 & s2 & s3 & E & N & F & S).
      rewrite Zt, E. cbn [bind]. unfold pick_shares, item_or. cbn [nth].
      destruct (Votes s1 s2 s3 N F S) as (vt & va & vo & V).
      exists s1, s2, s3, vt, va, vo. split; [reflexivity|]. split; [exact N|].
      split; [exact S|]. split; [|exact V]. intros H. exfalso. apply Bst. tauto.
  - destruct (Nml Bml) as (Zt & s1 & s2 & s3 & E & N & F & S).
    rewrite Zt, E. cbn [bind]. unfold pick_shares, item_or. cbn [nth].
    destruct (Votes s1 s2 s3 N F S) as (vt & va & vo & V).
    exists s1, s2, s3, vt, va, vo. split; [reflexivity|]. split; [exact N|].
    split; [exact S|]. split; [|exact V]. intros H. exfalso. apply Bml. tauto.
Qed.

Lemma averages_lists (stats : float_averages) (x y z x' y' z' : Binary64.float) :
  stats tinubu = Some (x, x') -> stats atiku = Some (y, y') -> stats obi = Some (z, z') ->
  stored_averages stats = [x; y; z] /\ engine_averages stats = [x'; y'; z'].
Proof.
  intros Et Ea Eo. unfold stored_averages, engine_averages, candidates.
  cbn [flat_map]. now rewrite Et, Ea, Eo.
Qed.




(** ** Keywords *)

Lemma fold_left_append {A B : Type} (f : B -> list A) (l : list B) (acc : list A) :
  fold_left (fun acc x => acc ++ f x) l acc = acc ++ flat_map f l.
Proof.
  revert acc. induction l as [|x l IH]; intros acc; simpl.
  - now rewrite app_nil_r.
  - now rewrite IH, app_assoc.
Qed.

Lemma all_keywords_flat_map (sample : list row) :
  all_keywords sample = flat_map (fun r => extract_keywords (text r)) sample.
Proof. unfold all_keywords. now rewrite fold_left_append. Qed.

Lemma extract_keywords_from (ws : list str) (acc : list str) :
  fold_left
    (fun keywords word =>
       let clean := strip_by is_keyword_punct word in
       if in_list clean keyword_allowlist then keywords ++ [upper clean]
       else keywords)
    ws acc
  = acc ++ flat_map (fun word => match keyword_of word with Some k => [k] | None => [] end) ws.
Proof.
  revert acc. induction ws as [|w ws IH]; intros acc; cbn [fold_left flat_map].
  - now rewrite app_nil_r.
  - rewrite IH. unfold keyword_of. cbv zeta.
    destruct (in_list (strip_by is_keyword_punct w) keyword_allowlist).
    + now rewrite <- app_assoc.
    + reflexivity.
Qed.

Lemma extract_keywords_flat_map (t : str) :
  extract_keywords t
  = flat_map (fun word => match keyword_of word with Some k => [k] | None => [] end)
             (split (lower t)).
Proof. unfold extract_keywords. now rewrite extract_keywords_from. Qed.

Lemma In_extract_keywords (k t : str) :
  In k (extract_keywords t) <->
  exists word, In word (split (lower t)) /\ keyword_of word = Some k.
Proof.
  rewrite extract_keywords_flat_map, in_flat_map. split.
  - intros (w & Hw & Hk). exists w. split; [assumption|].
    destruct (keyword_of w); simpl in Hk; [|contradiction].
    destruct Hk as [-> | []]. reflexivity.
  - intros (w & Hw & Hk). exists w. split; [assumption|]. rewrite Hk. now left.
Qed.

Lemma In_all_keywords (k : str) (sample : list row) :
  In k (all_keywords sample) <->
  exists r word, In r sample /\ In word (split (lower (text r))) /\
                 keyword_of word = Some k.
Proof.
  rewrite all_keywords_flat_map, in_flat_map. split.
  - intros (r & Hr & Hk). apply In_extract_keywords in Hk.
    destruct Hk as (w & Hw & Hk). now exists r, w.
  - intros (r & w & Hr & Hw & Hk). exists r. split; [assumption|].
    apply In_extract_keywords. now exists w.
Qed.

Lemma firstn_incl {A : Type} (n : nat) (l : list A) (x : A) :
  In x (firstn n l) -> In x l.
Proof.
  rewrite <- (firstn_skipn n l) at 2. intros H. apply in_or_app. now left.
Qed.

Lemma firstn_NoDup {A : Type} (n : nat) (l : list A) :
  NoDup l -> NoDup (firstn n l).
Proof.
  intros H. revert n. induction H as [|x l Hx Hl IH]; intros [|n]; simpl;
    try constructor.
  - intros Hin. apply Hx. revert Hin. apply firstn_incl.
  - apply IH.
Qed.

Lemma first_seen_spec (seen xs : list str) :
  NoDup (first_seen seen xs) /\
  (forall x, In x (first_seen seen xs) <-> In x xs /\ ~ In x seen).
Proof.
  revert seen. induction xs as [|y xs IH]; intros seen; simpl.
  - split; [constructor | intros x; tauto].
  - destruct (in_list y seen) eqn:E.
    + apply in_list_In in E. destruct (IH seen) as [N I]. split; [exact N|].
      intros x. rewrite I. split; [tauto|].
      intros [[-> | H] Hs]; [contradiction | tauto].
    + assert (Hy : ~ In y seen).
      { intros H. apply in_list_In in H. congruence. }
      destruct (IH (y :: seen)) as [N I]. split.
      * constructor; [|exact N]. rewrite I. simpl. tauto.
      * intros x. simpl. rewrite I. simpl.
        destruct (list_eq_dec ascii_dec y x) as [-> | Hne]; tauto.
Qed.

Lemma encounter_order_ok : set_order_ok encounter_order.
Proof.
  intros xs. unfold encounter_order. destruct (first_seen_spec [] xs) as [N I].
  split; [exact N|]. intros x. rewrite I. simpl. tauto.
Qed.

Lemma fallback_length (c : candidate) : length (fallback c) = 4%nat.
Proof. now destruct c. Qed.

Lemma NoDup_append {A : Type} (l1 l2 : list A) :
  NoDup l1 -> NoDup l2 -> (forall x, In x l1 -> ~ In x l2) -> NoDup (l1 ++ l2).
Proof.
  intros H1 H2 Hd. induction H1 as [|x l Hx Hl IH]; [exact H2|].
  simpl. constructor.
  - intros Hin. apply in_app_or in Hin. destruct Hin as [Hin | Hin];
      [contradiction | apply (Hd x); [now left | exact Hin]].
  - apply IH. intros y Hy. apply Hd. now right.
Qed.

Lemma fallback_NoDup (c : candidate) : NoDup (fallback c).
Proof.
  destruct c; repeat (constructor; [intros H; vm_compute in H; intuition discriminate|]);
    constructor.
Qed.

Section SetOrder.

Variable order : set_order.
Hypothesis order_ok : set_order_ok order.

(** C3, as the code has it: for any iteration order of the set, any
    candidate and any sample, the result has exactly 4 entries; it starts
    with up to 4 distinct extracted keywords, in the iteration order of the
    set (a keyword is a whitespace-delimited token of the lower-cased text,
    stripped of surrounding punctuation, found on the allowlist and
    upper-cased; all of them when at most 4 are distinct), and is completed
    from the candidate's fallback list; the result has no duplicates when
    no kept keyword is on that fallback list; all-empty texts give the
    fallback list itself. *)
Theorem top_keywords_shape (c : candidate) (sample : list row) :
  let distinct := order (all_keywords sample) in
  let kept := firstn 4 distinct in
  let result := top_keywords order c sample in
  length result = 4%nat /\
  (exists pad, result = kept ++ pad /\ incl pad (fallback c)) /\
  NoDup kept /\
  length kept = Nat.min 4 (length distinct) /\
  (forall k, In k kept ->
     exists r word, In r sample /\ In word (split (lower (text r))) /\
                    keyword_of word = Some k) /\
  (forall r word k, In r sample -> In word (split (lower (text r))) ->
                    keyword_of word = Some k -> In k distinct) /\
  ((forall k, In k kept -> ~ In k (fallback c)) ->
   result = kept ++ firstn (4 - length kept) (fallback c) /\ NoDup result) /\
  (Forall (fun r => text r = []) sample -> result = fallback c).
Proof.
  intros distinct kept result.
  destruct (order_ok (all_keywords sample)) as [Hnd Hin]. fold distinct in Hnd, Hin.
  assert (Hlen : length kept = Nat.min 4 (length distinct)) by apply length_firstn.
  assert (Hres : result = kept ++ firstn (4 - length kept) (fallback c)).
  { unfold result, top_keywords. fold distinct. fold kept.
    destruct (length kept <? 4)%nat eqn:E.
    - rewrite firstn_app. f_equal. apply firstn_all2. lia.
    - apply Nat.ltb_ge in E. replace (4 - length kept)%nat with 0%nat by lia.
      simpl. now rewrite app_nil_r. }
  assert (Hkept : NoDup kept) by now apply firstn_NoDup.
  split; [|split; [|split; [exact Hkept|split; [exact Hlen|split; [|split; [|split]]]]]].
  - rewrite Hres, length_app, length_firstn, fallback_length. lia.
  - exists (firstn (4 - length kept) (fallback c)). split; [exact Hres|].
    intros k. apply firstn_incl.
  - intros k Hk. apply In_all_keywords, Hin. revert Hk. apply firstn_incl.
  - intros r word k Hr Hw Hk. apply Hin, In_all_keywords. now exists r, word.
  - intros Hdisj. split; [exact Hres|]. rewrite Hres. apply NoDup_append.
    + exact Hkept.
    + apply firstn_NoDup, fallback_NoDup.
    + intros k Hk Hp. apply (Hdisj k Hk). revert Hp. apply firstn_incl.
  - intros Hempty.
    assert (Hnone : all_keywords sample = []).
    { rewrite all_keywords_flat_map. clear -Hempty.
      induction Hempty as [|r l Hr Hl IH]; [reflexivity|]. simpl. now rewrite Hr, IH. }
    assert (Hd : distinct = []).
    { destruct distinct as [|k d]; [reflexivity|].
      assert (Hk : In k (all_keywords sample)) by (apply Hin; now left).
      rewrite Hnone in Hk. destruct Hk. }
    rewrite Hres. unfold kept. rewrite Hd. now destruct c.
Qed.

Lemma singleton_order (x : str) : order [x] = [x].
Proof.
  destruct (order_ok [x]) as [N I].
  destruct (order [x]) as [|a l].
  - exfalso. apply (I x). now left.
  - assert (Ha : a = x).
    { destruct (proj1 (I a) (or_introl eq_refl)) as [E | []]. now symmetry. }
    subst a. destruct l as [|b l]; [reflexivity|].
    assert (Hb : b = x).
    { destruct (proj1 (I b) (or_intror (or_introl eq_refl))) as [E | []]. now symmetry. }
    subst b. inversion N as [|? ? Hn _]. exfalso. apply Hn. now left.
Qed.

Lemma top_keywords_duplicate_any_order :
  top_keywords order tinubu [row_of_text "Fix the economy!"]
  = map lit ["ECONOMY"; "ECONOMY"; "APC"; "REFORM"]%string.
Proof.
  unfold top_keywords.
  change (all_keywords [row_of_text "Fix the economy!"]) with [lit "ECONOMY"].
  rewrite singleton_order. reflexivity.
Qed.

End SetOrder.

Lemma top_keywords_shape_witness :
  length (top_keywords encounter_order atiku
            [row_of_text "Youth want change, jobs and security."; row_of_text ""]) = 4%nat.
Proof.
  exact (proj1 (top_keywords_shape encounter_order encounter_order_ok atiku
                  [row_of_text "Youth want change, jobs and security."; row_of_text ""])).
Defined.

Lemma latest_first_ok : set_order_ok latest_first.
Proof.
  intros xs. destruct (encounter_order_ok xs) as [N I]. unfold latest_first. split.
  - apply NoDup_rev, N.
  - intros x. rewrite <- in_rev. apply I.
Qed.

(** C3 as stated fails: for tinubu and a sample whose only keyword is
    ECONOMY the padding repeats it (whatever the iteration order, as the
    set has one element); and with five distinct keywords an iteration
    order other than the encounter order keeps other keywords than the
    first four met. *)
Lemma top_keywords_duplicate :
  set_order_ok encounter_order /\
  top_keywords encounter_order tinubu [row_of_text "Fix the economy!"]
  = map lit ["ECONOMY"; "ECONOMY"; "APC"; "REFORM"]%string /\
  ~ NoDup (top_keywords encounter_order tinubu [row_of_text "Fix the economy!"]) /\
  set_order_ok latest_first /\
  top_keywords latest_first obi [row_of_text "economy apc pdp reform unity"]
  = map lit ["UNITY"; "REFORM"; "PDP"; "APC"]%string /\
  firstn 4 (encounter_order (all_keywords [row_of_text "economy apc pdp reform unity"]))
  = map lit ["ECONOMY"; "APC"; "PDP"; "REFORM"]%string.
Proof.
  split; [exact encounter_order_ok|].
  pose proof (top_keywords_duplicate_any_order _ encounter_order_ok) as E.
  split; [exact E|]. split.
  - rewrite E. intros N. inversion N as [|? ? Hn _]. apply Hn. now left.
  - split; [exact latest_first_ok|]. split; vm_compute; reflexivity.
Qed.

(** ** Normalization *)

Ltac each_char c := destruct c as [[] [] [] [] [] [] [] []]; vm_compute; reflexivity.

Lemma lower_char_idem (c : ascii) : lower_char (lower_char c) = lower_char c.
Proof. each_char c. Qed.

Lemma lower_char_clean (c : ascii) : is_clean_char (lower_char c) = is_clean_char c.
Proof. each_char c. Qed.

Lemma lower_fixed (s : str) :
  Forall (fun c => lower_char c = c) s -> lower s = s.
Proof.
  induction 1 as [|c s Hc Hs IH]; [reflexivity|]. unfold lower in *. simpl.
  now rewrite Hc, IH.
Qed.

(** *** The scanner *)

Lemma re_scan_skip (m : matcher) (k : nat) (s : str) :
  re_scan m k s = re_scan m O (skipn k s).
Proof.
  revert k. induction s as [|c r IH]; intros [|k]; try reflexivity.
  simpl skipn. rewrite <- IH. reflexivity.
Qed.

Lemma re_sub_no_match (m : matcher) (s : str) : no_match m s -> re_sub m s = s.
Proof.
  unfold re_sub. induction s as [|c r IH]; [reflexivity|].
  intros [Hc Hr]. cbn [re_scan]. rewrite Hc. now rewrite IH.
Qed.

Lemma re_scan_emits (Q : ascii -> Prop) (m : matcher) :
  (forall c r, m (c :: r) = None -> Q c) ->
  (forall s repl n, m s = Some (repl, n) -> Forall Q repl) ->
  forall k s, Forall Q (re_scan m k s).
Proof.
  intros Hnone Hsome k s. revert k.
  induction s as [|c r IH]; intros k; [constructor|].
  cbn [re_scan]. destruct k as [|k]; [|apply IH].
  destruct (m (c :: r)) as [[repl n]|] eqn:E.
  - apply Forall_app. split; [exact (Hsome _ _ _ E) | apply IH].
  - constructor; [exact (Hnone _ _ E) | apply IH].
Qed.

Lemma re_scan_keeps (Q : ascii -> Prop) (m : matcher) :
  (forall s repl n, m s = Some (repl, n) -> Forall Q repl) ->
  forall k s, Forall Q s -> Forall Q (re_scan m k s).
Proof.
  intros Hsome k s Hs. revert k.
  induction Hs as [|c r Hc Hr IH]; intros k; [constructor|].
  cbn [re_scan]. destruct k as [|k]; [|apply IH].
  destruct (m (c :: r)) as [[repl n]|] eqn:E.
  - apply Forall_app. split; [exact (Hsome _ _ _ E) | apply IH].
  - constructor; [exact Hc | apply IH].
Qed.

(** *** [take_while], [drop_while], [strip] *)

Lemma skipn_take_while (p : ascii -> bool) (s : str) :
  skipn (length (take_while p s)) s = drop_while p s.
Proof.
  induction s as [|c r IH]; [reflexivity|]. simpl. destruct (p c); [exact IH | reflexivity].
Qed.

Lemma drop_while_Forall (Q : ascii -> Prop) (p : ascii -> bool) (s : str) :
  Forall Q s -> Forall Q (drop_while p s).
Proof.
  induction 1 as [|c r Hc Hr IH]; [constructor|]. simpl.
  destruct (p c); [exact IH | now constructor].
Qed.

Lemma strip_by_Forall (Q : ascii -> Prop) (p : ascii -> bool) (s : str) :
  Forall Q s -> Forall Q (strip_by p s).
Proof.
  intros H. unfold strip_by.
  apply Forall_rev, drop_while_Forall, Forall_rev, drop_while_Forall, H.
Qed.

Lemma drop_while_starts (s : str) : starts_ok (drop_while is_space s) = true.
Proof.
  induction s as [|c r IH]; [reflexivity|]. simpl.
  destruct (is_space c) eqn:E; [exact IH | simpl; now rewrite E].
Qed.

Lemma drop_while_id (s : str) : starts_ok s = true -> drop_while is_space s = s.
Proof.
  destruct s as [|c r]; [reflexivity|]. simpl. now destruct (is_space c).
Qed.

Lemma ends_ok_tail (c : ascii) (r : str) :
  ends_ok (c :: r) = true -> ends_ok r = true.
Proof. destruct r; [reflexivity | exact (fun H => H)]. Qed.

Lemma drop_while_ends (s : str) :
  ends_ok s = true -> ends_ok (drop_while is_space s) = true.
Proof.
  induction s as [|c r IH]; [reflexivity|]. intros H. simpl drop_while.
  destruct (is_space c); [apply IH; revert H; apply ends_ok_tail | exact H].
Qed.

Lemma starts_ok_rev (s : str) : starts_ok (rev s) = ends_ok s.
Proof.
  induction s as [|c r IH]; [reflexivity|]. simpl rev.
  destruct r as [|d r']; [reflexivity|].
  change (ends_ok (c :: d :: r')) with (ends_ok (d :: r')). rewrite <- IH.
  destruct (rev (d :: r')) as [|a l] eqn:E; [|reflexivity].
  apply (f_equal (@length ascii)) in E. rewrite length_rev in E. discriminate E.
Qed.

Lemma ends_ok_rev (s : str) : ends_ok (rev s) = starts_ok s.
Proof. rewrite <- (rev_involutive s) at 2. symmetry. apply starts_ok_rev. Qed.

Lemma strip_starts (s : str) : starts_ok (strip s) = true.
Proof.
  unfold strip, strip_by. rewrite starts_ok_rev. apply drop_while_ends.
  rewrite ends_ok_rev. apply drop_while_starts.
Qed.

Lemma strip_ends (s : str) : ends_ok (strip s) = true.
Proof. unfold strip, strip_by. rewrite ends_ok_rev. apply drop_while_starts. Qed.

Lemma strip_id (s : str) : starts_ok s = true -> ends_ok s = true -> strip s = s.
Proof.
  intros Hs He. unfold strip, strip_by. rewrite (drop_while_id s Hs).
  rewrite drop_while_id by (now rewrite starts_ok_rev). apply rev_involutive.
Qed.

(** *** Collapsing whitespace *)

Lemma collapse_cons (c : ascii) (r : str) :
  re_sub pat_spaces (c :: r) =
  if is_space c then space :: re_sub pat_spaces (drop_while is_space r)
  else c :: re_sub pat_spaces r.
Proof.
  unfold re_sub. cbn [re_scan]. unfold pat_spaces. cbn [take_while].
  destruct (is_space c); [|reflexivity].
  cbn [length Nat.pred app]. now rewrite re_scan_skip, skipn_take_while.
Qed.

Lemma all_space_ends (s : str) :
  s <> [] -> drop_while is_space s = [] -> ends_ok s = false.
Proof.
  induction s as [|c r IH]; [contradiction|]. intros _ H. simpl in H.
  destruct (is_space c) eqn:E; [|discriminate H].
  destruct r as [|d r']; [simpl; now rewrite E|].
  change (ends_ok (c :: d :: r')) with (ends_ok (d :: r')).
  apply IH; [discriminate | exact H].
Qed.

Lemma collapse_tidy_bounded (n : nat) (s : str) :
  (length s <= n)%nat -> ends_ok s = true ->
  tidy_tail (re_sub pat_spaces s) = true.
Proof.
  revert s. induction n as [|n IH]; intros s Hn He.
  - destruct s; [reflexivity | simpl in Hn; lia].
  - destruct s as [|c r]; [reflexivity|]. simpl in Hn.
    rewrite collapse_cons. destruct (is_space c) eqn:Ec.
    + destruct (drop_while is_space r) as [|d r''] eqn:Ed.
      * rewrite all_space_ends in He; [discriminate He | discriminate |].
        simpl. now rewrite Ec.
      * assert (Hd : is_space d = false).
        { pose proof (drop_while_starts r) as H. rewrite Ed in H. simpl in H.
          now destruct (is_space d). }
        assert (Hlen : (length (d :: r'') <= n)%nat).
        { rewrite <- Ed, <- skipn_take_while, length_skipn. lia. }
        assert (He' : ends_ok (d :: r'') = true).
        { rewrite <- Ed. apply drop_while_ends. revert He. apply ends_ok_tail. }
        pose proof (IH _ Hlen He') as T.
        rewrite collapse_cons, Hd in *.
        cbn [tidy_tail head_nonspace]. change (is_space space) with true. cbn iota.
        rewrite Hd. cbn [tidy_tail] in T. rewrite Hd in T. rewrite T. reflexivity.
    + cbn [tidy_tail]. rewrite Ec. apply IH; [lia|]. revert He. apply ends_ok_tail.
Qed.

Lemma collapse_tidy (s : str) :
  ends_ok s = true -> tidy_tail (re_sub pat_spaces s) = true.
Proof. apply (collapse_tidy_bounded (length s)). lia. Qed.

Lemma collapse_starts (s : str) :
  starts_ok s = true -> starts_ok (re_sub pat_spaces s) = true.
Proof.
  destruct s as [|c r]; [reflexivity|]. simpl starts_ok. rewrite collapse_cons.
  destruct (is_space c) eqn:E; [discriminate | intros _; simpl; now rewrite E].
Qed.

Lemma tidy_collapse_id (s : str) :
  tidy_tail s = true -> re_sub pat_spaces s = s.
Proof.
  induction s as [|c r IH]; [reflexivity|]. cbn [tidy_tail]. rewrite collapse_cons.
  destruct (is_space c) eqn:Ec.
  - rewrite !andb_true_iff. intros [[Hc Hh] Ht]. apply Ascii.eqb_eq in Hc. subst c.
    rewrite drop_while_id by (destruct r; [discriminate Hh | exact Hh]).
    now rewrite IH.
  - intros Ht. now rewrite IH.
Qed.

Lemma tidy_ends (s : str) : tidy_tail s = true -> ends_ok s = true.
Proof.
  induction s as [|c r IH]; [reflexivity|]. cbn [tidy_tail].
  destruct r as [|d r'].
  - simpl. destruct (is_space c); [rewrite andb_false_r; discriminate | reflexivity].
  - change (ends_ok (c :: d :: r')) with (ends_ok (d :: r')).
    destruct (is_space c); [rewrite !andb_true_iff; intros [_ H] | intros H];
      now apply IH.
Qed.

(** *** What [clean_text] returns *)

Lemma pat_punct_none (c : ascii) (r : str) :
  pat_punct (c :: r) = None <-> is_clean_char c = true.
Proof.
  unfold pat_punct, is_clean_char.
  destruct (is_word c || is_space c || Ascii.eqb c apostrophe); split;
    intros H; congruence.
Qed.

Lemma pat_punct_some (s repl : str) (n : nat) :
  pat_punct s = Some (repl, n) -> repl = [space].
Proof.
  unfold pat_punct. destruct s as [|c r]; [discriminate|].
  destruct (is_word c || is_space c || Ascii.eqb c apostrophe); congruence.
Qed.

Lemma pat_spaces_some (s repl : str) (n : nat) :
  pat_spaces s = Some (repl, n) -> repl = [space].
Proof. unfold pat_spaces. destruct (take_while is_space s); congruence. Qed.

Lemma clean_str_normalized (t : str) : normalized (clean_str t).
Proof.
  unfold clean_str.
  set (x := re_sub (pat_sigil "#") (re_sub (pat_sigil "@") (re_sub pat_url t))).
  assert (H4 : Forall (fun c => is_clean_char c = true) (re_sub pat_punct x)).
  { apply re_scan_emits.
    - intros c r. apply pat_punct_none.
    - intros s repl n E. rewrite (pat_punct_some _ _ _ E). now constructor. }
  assert (H5 : Forall (fun c => is_clean_char c = true /\ lower_char c = c)
                      (lower (re_sub pat_punct x))).
  { unfold lower. apply Forall_map. revert H4. apply Forall_impl. intros c Hc.
    now rewrite lower_char_clean, lower_char_idem. }
  repeat split.
  - apply re_scan_keeps.
    + intros s repl n E. rewrite (pat_spaces_some _ _ _ E). now repeat constructor.
    + apply strip_by_Forall, H5.
  - apply collapse_starts, strip_starts.
  - apply collapse_tidy, strip_ends.
Qed.

Lemma has_url_no_match (s : str) : has_url s = false -> no_match pat_url s.
Proof.
  induction s as [|c r IH]; [constructor|]. cbn [has_url no_match].
  rewrite orb_false_iff. intros [Hh Hr]. split; [|now apply IH].
  unfold pat_url. destruct (startswith (lit "http") (c :: r)); [|reflexivity].
  rewrite andb_true_l in Hh. destruct (skipn 4 (c :: r)) as [|d l]; [reflexivity|].
  cbn [take_while]. now rewrite Hh.
Qed.

Lemma clean_no_sigil (sigil : ascii) (s : str) :
  is_clean_char sigil = false ->
  Forall (fun c => is_clean_char c = true) s -> no_match (pat_sigil sigil) s.
Proof.
  intros Hs. induction 1 as [|c r Hc Hr IH]; [constructor|].
  split; [|exact IH]. unfold pat_sigil.
  destruct (Ascii.eqb c sigil) eqn:E; [|reflexivity].
  apply Ascii.eqb_eq in E. congruence.
Qed.

Lemma clean_no_punct (s : str) :
  Forall (fun c => is_clean_char c = true) s -> no_match pat_punct s.
Proof.
  induction 1 as [|c r Hc Hr IH]; [constructor|].
  split; [now apply pat_punct_none | exact IH].
Qed.

Lemma normalized_fixed (y : str) :
  normalized y -> has_url y = false -> clean_str y = y.
Proof.
  intros (Hgood & Hstart & Htidy) Hurl.
  assert (Hclean : Forall (fun c => is_clean_char c = true) y)
    by (revert Hgood; apply Forall_impl; tauto).
  assert (Hlow : Forall (fun c => lower_char c = c) y)
    by (revert Hgood; apply Forall_impl; tauto).
  unfold clean_str.
  rewrite (re_sub_no_match pat_url y) by now apply has_url_no_match.
  rewrite (re_sub_no_match (pat_sigil "@") y)
    by (apply clean_no_sigil; [reflexivity | exact Hclean]).
  rewrite (re_sub_no_match (pat_sigil "#") y)
    by (apply clean_no_sigil; [reflexivity | exact Hclean]).
  rewrite (re_sub_no_match pat_punct y) by now apply clean_no_punct.
  rewrite (lower_fixed y Hlow).
  rewrite (strip_id y Hstart (tidy_ends y Htidy)).
  now apply tidy_collapse_id.
Qed.

Lemma clean_text_normalized (v : py_value) : normalized (clean_text v).
Proof.
  destruct v; try (repeat split; constructor). apply clean_str_normalized.
Qed.

(** *** Lengths *)



Lemma take_while_length (p : ascii -> bool) (s : str) :
  (length (take_while p s) <= length s)%nat.
Proof.
  induction s as [|c r IH]; [reflexivity|]. simpl. destruct (p c); simpl; lia.
Qed.

Lemma drop_while_length (p : ascii -> bool) (s : str) :
  (length (drop_while p s) <= length s)%nat.
Proof.
  induction s as [|c r IH]; [reflexivity|]. simpl. destruct (p c); simpl; lia.
Qed.


Lemma startswith_length (p s : str) :
  startswith p s = true -> (length p <= length s)%nat.
Proof.
  intros H. apply startswith_spec in H. destruct H as (r & ->).
  rewrite length_app. lia.
Qed.

Lemma pat_url_some (s repl : str) (n : nat) :
  pat_url s = Some (repl, n) -> repl = [] /\ (5 <= n <= length s)%nat.
Proof.
  unfold pat_url. destruct (startswith (lit "http") s) eqn:E; [|discriminate].
  apply startswith_length in E. change (length (lit "http")) with 4%nat in E.
  pose proof (take_while_length (fun c => negb (is_space c)) (skipn 4 s)) as H.
  rewrite length_skipn in H.
  destruct (take_while (fun c => negb (is_space c)) (skipn 4 s)) as [|a l];
    [discriminate|].
  intros I. injection I as <- <-. simpl length in *. split; [reflexivity | lia].
Qed.





Lemma pat_url_none (c : ascii) (r : str) :
  pat_url (c :: r) = None ->
  startswith (lit "http") (c :: r) &&
  match skipn 4 (c :: r) with
  | d :: _ => negb (is_space d)
  | [] => false
  end = false.
Proof.
  unfold pat_url. destruct (startswith (lit "http") (c :: r)); [|reflexivity].
  rewrite andb_true_l. destruct (skipn 4 (c :: r)) as [|d l]; [reflexivity|].
  cbn [take_while]. destruct (negb (is_space d)); [discriminate | reflexivity].
Qed.



Lemma has_url_spec (s : str) :
  has_url s = true <->
  exists c, is_space c = false /\ occurs (lit "http" ++ [c]) s.
Proof.
  induction s as [|x r IH].
  - split; [discriminate|]. intros (c & _ & pre & post & E).
    destruct pre; discriminate E.
  - cbn [has_url]. rewrite orb_true_iff, IH, andb_true_iff, startswith_spec. split.
    + intros [[(rest & E) Hd] | (c & Hc & pre & post & E)].
      * rewrite E in Hd. simpl skipn in Hd. destruct rest as [|d rest]; [discriminate|].
        exists d. split; [now destruct (is_space d)|].
        exists [], rest. rewrite E. reflexivity.
      * exists c. split; [exact Hc|]. exists (x :: pre), post. now rewrite E.
    + intros (c & Hc & pre & post & E). destruct pre as [|y pre].
      * left. simpl in E. split; [exists (c :: post); exact E|].
        rewrite E. simpl. now rewrite Hc.
      * right. injection E as _ E. exists c. split; [exact Hc|]. now exists pre, post.
Qed.

Lemma lower_clean_text (v : py_value) : lower (clean_text v) = clean_text v.
Proof.
  apply lower_fixed. destruct (clean_text_normalized v) as (H & _).
  revert H. apply Forall_impl. tauto.
Qed.




(** ** The decision table on normalized text *)

(** C1: the decision table of the rule-based scorer over the four lexicon
    counts of the lower-cased text, which is the text itself when it is a
    normalized text, and its two scenarios: a text in which "excellent" occurs
    and no negative or strong-negative word does scores 0.8; a text in which
    "good" and "bad" are the only lexicon words that occur scores 0.0. *)
Theorem rule_based_sentiment_decision (text : str) :
  let t := lower text in
  let strong_pos_count := count_in strong_positive t in
  let pos_count := count_in positive t in
  let neg_count := count_in negative t in
  let strong_neg_count := count_in strong_negative t in
  let pos_mass := (2 * strong_pos_count + pos_count)%Z in
  let neg_mass := (2 * strong_neg_count + neg_count)%Z in
  let score := _rule_based_sentiment text in
  ((exists v, text = clean_text v) -> t = text) /\
  ((pos_mass > neg_mass)%Z -> (strong_pos_count > 0)%Z -> score = 0.8%Q) /\
  ((pos_mass > neg_mass)%Z -> strong_pos_count = 0%Z -> score = 0.5%Q) /\
  ((neg_mass > pos_mass)%Z -> (strong_neg_count > 0)%Z -> score = (-0.8)%Q) /\
  ((neg_mass > pos_mass)%Z -> strong_neg_count = 0%Z -> score = (-0.5)%Q) /\
  (pos_mass = neg_mass -> score = 0.0%Q) /\
  (occurs (lit "excellent") t ->
   (forall w, In w (negative ++ strong_negative) -> ~ occurs w t) ->
   score = 0.8%Q) /\
  (occurs (lit "good") t -> occurs (lit "bad") t ->
   (forall w, In w lexicons -> occurs w t -> w = lit "good" \/ w = lit "bad") ->
   score = 0.0%Q).
Proof.
  intros t sp p n sn pos_mass neg_mass score.
  assert (E : score =
    if (pos_mass >? neg_mass)%Z then (if (sp >? 0)%Z then 0.8 else 0.5)%Q
    else if (neg_mass >? pos_mass)%Z then (if (sn >? 0)%Z then -0.8 else -0.5)%Q
    else 0.0%Q).
  { unfold score. rewrite rule_based_cases. fold t. fold sp. fold sn. fold p. fold n.
    replace (sp * 2 + p)%Z with pos_mass by (unfold pos_mass; lia).
    replace (sn * 2 + n)%Z with neg_mass by (unfold neg_mass; lia).
    reflexivity. }
  assert (T : forall a b : Z, (a > b)%Z -> (a >? b)%Z = true)
    by (intros a b H; apply Z.gtb_lt; lia).
  assert (F : forall a b : Z, (a <= b)%Z -> (a >? b)%Z = false).
  { intros a b H. destruct (a >? b)%Z eqn:G; [|reflexivity].
    apply Z.gtb_lt in G. lia. }
  split; [intros (v & ->); apply lower_clean_text|].
  repeat split.
  - intros H1 H2. now rewrite E, (T _ _ H1), (T _ _ H2).
  - intros H1 H2. rewrite E, (T _ _ H1), H2. reflexivity.
  - intros H1 H2. rewrite E, (F pos_mass neg_mass), (T _ _ H1), (T _ _ H2) by lia.
    reflexivity.
  - intros H1 H2. rewrite E, (F pos_mass neg_mass), (T _ _ H1), H2 by lia.
    reflexivity.
  - intros H. rewrite E, (F pos_mass neg_mass), (F neg_mass pos_mass) by lia.
    reflexivity.
  - intros Hex Hneg.
    assert (Hsp : (0 < sp)%Z).
    { apply (count_in_pos strong_positive (lit "excellent")); [now left | exact Hex]. }
    assert (Hn : n = 0%Z).
    { apply count_in_zero. intros w Hw. apply Hneg, in_or_app. now left. }
    assert (Hsn : sn = 0%Z).
    { apply count_in_zero. intros w Hw. apply Hneg, in_or_app. now right. }
    pose proof (count_in_bounds positive t) as Hp. fold p in Hp.
    rewrite E, (T pos_mass neg_mass), (T sp 0%Z) by (unfold pos_mass, neg_mass; lia).
    reflexivity.
  - intros Hgood Hbad Honly.
    assert (Z0 : forall lex, (forall w, In w lex -> In w lexicons /\ w <> lit "good" /\ w <> lit "bad") ->
                             count_in lex t = 0%Z).
    { intros lex Hlex. apply count_in_zero. intros w Hw Hocc.
      destruct (Hlex w Hw) as (Hin & Hg & Hb).
      destruct (Honly w Hin Hocc); contradiction. }
    assert (Hsp : sp = 0%Z).
    { apply Z0. intros w Hw. split; [unfold lexicons; apply in_or_app; now left|].
      lexicon_cases Hw; subst w; split; intros D; vm_compute in D; discriminate D. }
    assert (Hsn : sn = 0%Z).
    { apply Z0. intros w Hw. split;
        [unfold lexicons; apply in_or_app; right; apply in_or_app; right;
         apply in_or_app; now right|].
      lexicon_cases Hw; subst w; split; intros D; vm_compute in D; discriminate D. }
    assert (Hp : p = 1%Z).
    { unfold p. change positive with (lit "good" :: tl positive).
      rewrite count_in_cons. apply contains_spec in Hgood. rewrite Hgood.
      rewrite Z0; [reflexivity|]. intros w Hw.
      split; [unfold lexicons; apply in_or_app; right; apply in_or_app; left;
              now right|].
      lexicon_cases Hw; subst w; split; intros D; vm_compute in D; discriminate D. }
    assert (Hn : n = 1%Z).
    { unfold n. change negative with (lit "bad" :: tl negative).
      rewrite count_in_cons. apply contains_spec in Hbad. rewrite Hbad.
      rewrite Z0; [reflexivity|]. intros w Hw.
      split; [unfold lexicons; apply in_or_app; right; apply in_or_app; right;
              apply in_or_app; left; now right|].
      lexicon_cases Hw; subst w; split; intros D; vm_compute in D; discriminate D. }
    rewrite E, (F pos_mass neg_mass), (F neg_mass pos_mass)
      by (unfold pos_mass, neg_mass; lia).
    reflexivity.
Qed.

Lemma rule_based_sentiment_decision_witness :
  _rule_based_sentiment (lit "an excellent plan") = 0.8%Q /\
  _rule_based_sentiment (lit "we support him") = 0.5%Q /\
  _rule_based_sentiment (lit "a terrible week") = (-0.8)%Q /\
  _rule_based_sentiment (lit "poor turnout") = (-0.5)%Q /\
  _rule_based_sentiment (lit "no opinion") = 0.0%Q /\
  _rule_based_sentiment (lit "Excellent, and great too") = 0.8%Q /\
  _rule_based_sentiment (lit "good roads, bad schools") = 0.0%Q.
Proof.
  split; [|split; [|split; [|split; [|split; [|split]]]]].
  - apply (proj1 (proj2 (rule_based_sentiment_decision (lit "an excellent plan"))));
      vm_compute; reflexivity.
  - apply (proj1 (proj2 (proj2 (rule_based_sentiment_decision (lit "we support him")))));
      vm_compute; reflexivity.
  - apply (proj1 (proj2 (proj2 (proj2 (rule_based_sentiment_decision (lit "a terrible week"))))));
      vm_compute; reflexivity.
  - apply (proj1 (proj2 (proj2 (proj2 (proj2 (rule_based_sentiment_decision (lit "poor turnout")))))));
      vm_compute; reflexivity.
  - apply (proj1 (proj2 (proj2 (proj2 (proj2 (proj2
             (rule_based_sentiment_decision (lit "no opinion"))))))));
      vm_compute; reflexivity.
  - apply (proj1 (proj2 (proj2 (proj2 (proj2 (proj2 (proj2
             (rule_based_sentiment_decision (lit "Excellent, and great too")))))))));
      [ apply contains_spec; vm_compute; reflexivity | ].
    intros w Hw Hocc. apply contains_spec in Hocc.
    lexicon_cases Hw; subst w; vm_compute in Hocc; discriminate Hocc.
  - apply (proj2 (proj2 (proj2 (proj2 (proj2 (proj2 (proj2
             (rule_based_sentiment_decision (lit "good roads, bad schools")))))))));
      [ apply contains_spec; vm_compute; reflexivity
      | apply contains_spec; vm_compute; reflexivity | ].
    intros w Hw Hocc. apply contains_spec in Hocc.
    lexicon_cases Hw; subst w;
      first [ left; vm_compute; reflexivity
            | right; vm_compute; reflexivity
            | vm_compute in Hocc; discriminate Hocc ].
Defined.

(** * Further properties *)

(** ** The analyzer: values, batches, loading *)

Section AnalyzerValues.

Context {features : Type}.
Variable self : EnhancedSentimentAnalyzer features.

Lemma analyze_sentiment_value (text : py_value) :
  exists score, analyze_sentiment self text = Ok score /\ In score score_values.
Proof.
  pose proof (rule_based_range (clean_text text)) as Hr.
  assert (Rule : In (_rule_based_sentiment (clean_text text)) score_values).
  { destruct Hr as [H|[H|[H|[H|[H|[]]]]]]; rewrite <- H; simpl; tauto. }
  destruct (model self) as [m|] eqn:Em; [destruct (vectorizer self) as [v|] eqn:Ev|].
  - rewrite (analyze_sentiment_loaded self text m v Em Ev).
    destruct (x <- v [clean_text text] ;; m x) as [label|e].
    + eexists; split; [reflexivity|].
      destruct (sentiment_map_range label) as [H|[H|[H|[H|[H|[]]]]]];
        rewrite <- H; simpl; tauto.
    + eexists; split; [reflexivity | exact Rule].
  - rewrite analyze_sentiment_rule_based by now right.
    eexists; split; [reflexivity | exact Rule].
  - rewrite analyze_sentiment_rule_based by now left.
    eexists; split; [reflexivity | exact Rule].
Qed.

(** X1: [analyze_sentiment] returns one of nine scores, whatever the text
    and the artifacts; and when the classifier answers one of the five
    labels of the category map, the score is that label's anchor. *)
Theorem analyze_sentiment_values (text : py_value) :
  (exists score, analyze_sentiment self text = Ok score /\ In score score_values) /\
  (forall the_model the_vectorizer x label anchor,
      model self = Some the_model -> vectorizer self = Some the_vectorizer ->
      the_vectorizer [clean_text text] = Ok x -> the_model x = Ok label ->
      In (label, anchor) sentiment_map ->
      analyze_sentiment self text = Ok anchor).
Proof.
  split; [apply analyze_sentiment_value|].
  intros m v x label anchor Hm Hv Hx Hp Hin.
  rewrite (analyze_sentiment_loaded self text m v Hm Hv), Hx. cbn [bind]. rewrite Hp.
  f_equal. unfold sentiment_map in Hin. simpl In in Hin.
  repeat (destruct Hin as [Hin | Hin]; [injection Hin as <- <-; reflexivity|]).
  destruct Hin.
Qed.

Lemma comprehension_total {A B : Type} (f : A -> result B) (xs : list A) :
  (forall x, In x xs -> exists y, f x = Ok y) ->
  exists ys, comprehension f xs = Ok ys /\ Forall2 (fun x y => f x = Ok y) xs ys.
Proof.
  induction xs as [|x rest IH]; intros H.
  - exists []. split; [reflexivity | constructor].
  - destruct (H x (or_introl eq_refl)) as (y & Hy).
    destruct IH as (ys & E & F); [intros z Hz; apply H; now right|].
    exists (y :: ys). cbn [comprehension]. rewrite Hy. cbn [bind]. rewrite E.
    split; [reflexivity | now constructor].
Qed.

(** X2: [batch_analyze] raises nothing and returns, in order, the score
    [analyze_sentiment] gives each text: as many scores as texts, the i-th
    score for the i-th text, each in [-1, 1]. *)
Theorem batch_analyze_pointwise (texts : list py_value) :
  exists scores,
    batch_analyze self texts = Ok scores /\
    length scores = length texts /\
    Forall2 (fun text score => analyze_sentiment self text = Ok score) texts scores /\
    Forall (fun score => (-1 <= score)%Q /\ (score <= 1)%Q) scores.
Proof.
  destruct (comprehension_total (analyze_sentiment self) texts) as (scores & E & F).
  { intros text _. destruct (analyze_sentiment_returns self text) as (s & Hs & _).
    now exists s. }
  exists scores. split; [exact E|]. split; [symmetry; exact (Forall2_length F)|].
  split; [exact F|].
  clear E. induction F as [|text score texts' scores' H F IH]; constructor; [|exact IH].
  destruct (analyze_sentiment_returns self text) as (s & Hs & Hb).
  rewrite Hs in H. injection H as <-. exact Hb.
Qed.

End AnalyzerValues.

Section Loading.

Context {features : Type}.
Variable files : artifact_files features.

(** X3: after construction the vectorizer is never loaded without the
    classifier, and both are absent when either file is missing; whenever
    the vectorizer is absent every score is the rule-based one, also when
    the classifier did load (the vectorizer's file failed to load), in
    which case [get_results] still reports the analysis as ML. *)
Theorem load_models_outcome :
  let analyzer := new_analyzer files in
  (vectorizer analyzer <> None -> model analyzer <> None) /\
  (model_file_exists files = false \/ vectorizer_file_exists files = false ->
   model analyzer = None /\ vectorizer analyzer = None) /\
  (vectorizer analyzer = None ->
   forall text,
     analyze_sentiment analyzer text = Ok (_rule_based_sentiment (clean_text text))) /\
  (forall loaded_model e,
      model_file_exists files = true -> vectorizer_file_exists files = true ->
      load_model_file files = Ok loaded_model ->
      load_vectorizer_file files = Raise e ->
      vectorizer analyzer = None /\
      using_ml_model analyzer = true /\
      analysis_type analyzer = "ML Enhanced"%string).
Proof.
  cbv zeta. unfold new_analyzer, load_models.
  split; [|split; [|split]].
  - destruct (model_file_exists files && vectorizer_file_exists files);
      [|intros H; now contradiction H].
    destruct (load_model_file files); [|intros H; now contradiction H].
    destruct (load_vectorizer_file files); intros H; cbn [model]; discriminate.
  - intros H.
    assert (E : model_file_exists files && vectorizer_file_exists files = false).
    { destruct H as [-> | ->]; [reflexivity | apply andb_false_r]. }
    rewrite E. split; reflexivity.
  - intros H text. apply analyze_sentiment_rule_based. now right.
  - intros m e -> -> -> ->. cbn. repeat split.
Qed.

End Loading.

Lemma load_models_outcome_witness :
  vectorizer (new_analyzer half_loaded_files) = None /\
  using_ml_model (new_analyzer half_loaded_files) = true /\
  analysis_type (new_analyzer half_loaded_files) = "ML Enhanced"%string /\
  analyze_sentiment (new_analyzer half_loaded_files) (PyStr (lit "A terrible plan"))
  = Ok (_rule_based_sentiment (clean_text (PyStr (lit "A terrible plan")))).
Proof.
  destruct (load_models_outcome half_loaded_files) as (_ & _ & Hrule & Hhalf).
  destruct (Hhalf (fun _ => Ok (lit "positive")) (Exception "unpickling failed")
              eq_refl eq_refl eq_refl eq_refl) as (Hv & Hu & Ht).
  split; [exact Hv|]. split; [exact Hu|]. split; [exact Ht|].
  apply Hrule. exact Hv.
Defined.

Lemma analyze_sentiment_values_witness :
  analyze_sentiment always_positive (PyStr (lit "whatever")) = Ok 0.6%Q.
Proof.
  apply (proj2 (analyze_sentiment_values always_positive (PyStr (lit "whatever")))
           (fun _ => Ok (lit "positive")) (fun _ => Ok tt) tt (lit "positive") 0.6%Q);
    try reflexivity.
  simpl. tauto.
Defined.

(** ** The rule-based scorer on joined texts *)

Lemma count_in_sep_comm (lexicon : list str) (a b : str) :
  (forall w, In w lexicon -> In w lexicons) ->
  count_in lexicon (a ++ space :: b) = count_in lexicon (b ++ space :: a).
Proof.
  intros Hl. rewrite !count_in_sep by assumption. f_equal. f_equal.
  apply filter_ext. intros w. apply orb_comm.
Qed.

Lemma lexicon_parts :
  (forall w, In w strong_positive -> In w lexicons) /\
  (forall w, In w positive -> In w lexicons) /\
  (forall w, In w negative -> In w lexicons) /\
  (forall w, In w strong_negative -> In w lexicons).
Proof.
  unfold lexicons. repeat split; intros w Hw;
    repeat (apply in_or_app; first [now left | right]); assumption.
Qed.

(** X4: the rule-based score of two texts joined by a space depends only on
    which lexicon words occur in either, so it does not change when the
    two texts are swapped; and a part in which no lexicon word occurs does
    not change the score of the other. *)
Theorem rule_based_joined (a b : str) :
  _rule_based_sentiment (a ++ space :: b) = _rule_based_sentiment (b ++ space :: a) /\
  ((forall w, In w lexicons -> ~ occurs w (lower b)) ->
   _rule_based_sentiment (a ++ space :: b) = _rule_based_sentiment a).
Proof.
  destruct lexicon_parts as (H1 & H2 & H3 & H4).
  split.
  - rewrite !rule_based_cases. cbv zeta. rewrite !lower_app.
    change (lower (space :: b)) with (space :: lower b).
    change (lower (space :: a)) with (space :: lower a).
    now rewrite (count_in_sep_comm strong_positive), (count_in_sep_comm positive),
      (count_in_sep_comm negative), (count_in_sep_comm strong_negative).
  - intros Hnone.
    assert (E : forall lexicon, (forall w, In w lexicon -> In w lexicons) ->
                count_in lexicon (lower a ++ space :: lower b) = count_in lexicon (lower a)).
    { intros lexicon Hl. rewrite count_in_sep by assumption. rewrite count_in_length.
      f_equal. f_equal. apply filter_ext_in. intros w Hw.
      destruct (contains w (lower b)) eqn:C; [|apply orb_false_r].
      apply contains_spec in C. exfalso. exact (Hnone w (Hl w Hw) C). }
    rewrite !rule_based_cases. cbv zeta. rewrite !lower_app.
    change (lower (space :: b)) with (space :: lower b).
    now rewrite !E.
Qed.

Lemma rule_based_joined_witness :
  _rule_based_sentiment (lit "good roads" ++ space :: lit "and more")
  = _rule_based_sentiment (lit "good roads").
Proof.
  apply (proj2 (rule_based_joined (lit "good roads") (lit "and more"))).
  intros w Hw Hocc. apply contains_spec in Hocc.
  lexicon_cases Hw; subst w; vm_compute in Hocc; discriminate Hocc.
Defined.

(** ** What cleaned text looks like *)





(** ** Tokens and keywords *)

Lemma lower_char_clean_space (c : ascii) : is_space (lower_char c) = is_space c.
Proof. each_char c. Qed.

Lemma split_from_app (cur a b : str) (c : ascii) :
  is_space c = true ->
  split_from cur (a ++ c :: b) = split_from cur a ++ split b.
Proof.
  intros Hc. revert cur. induction a as [|x a IH]; intros cur.
  - cbn [app split_from]. rewrite Hc. destruct cur; reflexivity.
  - cbn [app split_from]. destruct (is_space x).
    + destruct cur; rewrite IH; reflexivity.
    + apply IH.
Qed.

Lemma split_app (a b : str) (c : ascii) :
  is_space c = true -> split (a ++ c :: b) = split a ++ split b.
Proof. apply split_from_app. Qed.

Lemma keyword_of_vocabulary (word k : str) :
  keyword_of word = Some k -> In k keyword_vocabulary.
Proof.
  unfold keyword_of.
  destruct (in_list (strip_by is_keyword_punct word) keyword_allowlist) eqn:E;
    [|discriminate].
  intros H. injection H as <-. apply in_list_In in E.
  change keyword_vocabulary with (map upper keyword_allowlist).
  now apply in_map.
Qed.

(** X6: every keyword [extract_keywords] returns is one of the nineteen
    upper-case allowlist words, there are at most as many keywords as
    whitespace-delimited tokens, and the keywords of two texts joined by a
    whitespace character are the keywords of the first followed by those
    of the second (so repeated words give repeated keywords). *)
Theorem extract_keywords_vocabulary (text : str) :
  (forall k, In k (extract_keywords text) -> In k keyword_vocabulary) /\
  (length (extract_keywords text) <= length (split text))%nat /\
  (forall other c, is_space c = true ->
     extract_keywords (text ++ c :: other)
     = extract_keywords text ++ extract_keywords other).
Proof.
  split; [|split].
  - intros k Hk. apply In_extract_keywords in Hk. destruct Hk as (word & _ & Hw).
    exact (keyword_of_vocabulary _ _ Hw).
  - rewrite extract_keywords_flat_map.
    assert (L : forall ws : list str,
               (length (flat_map (fun word => match keyword_of word with
                                              | Some k => [k] | None => [] end) ws)
                <= length ws)%nat).
    { induction ws as [|w ws IH]; [reflexivity|]. cbn [flat_map].
      rewrite length_app. destruct (keyword_of w); simpl; lia. }
    assert (S : forall s, length (split (lower s)) = length (split s)).
    { intros s. unfold split.
      assert (G : forall s cur1 cur2, (cur1 = [] <-> cur2 = []) ->
                  length (split_from cur1 (lower s)) = length (split_from cur2 s)).
      { clear. induction s as [|c s IH]; intros cur1 cur2 H.
        - simpl. destruct cur1, cur2; try reflexivity;
            [discriminate (proj1 H eq_refl) | discriminate (proj2 H eq_refl)].
        - cbn [lower map split_from]. fold (lower s). rewrite lower_char_clean_space.
          destruct (is_space c).
          + destruct cur1 as [|a1 l1], cur2 as [|a2 l2].
            * apply IH. tauto.
            * discriminate (proj1 H eq_refl).
            * discriminate (proj2 H eq_refl).
            * cbn [length]. f_equal. apply IH. tauto.
          + apply IH. split; discriminate. }
      apply G. tauto. }
    rewrite <- S. apply L.
  - intros other c Hc. rewrite !extract_keywords_flat_map, lower_app.
    change (lower (c :: other)) with (lower_char c :: lower other).
    rewrite split_app by (now rewrite lower_char_clean_space).
    apply flat_map_app.
Qed.

Lemma extract_keywords_vocabulary_witness :
  extract_keywords (lit "Jobs, jobs!" ++ tab :: lit "(youth)")
  = extract_keywords (lit "Jobs, jobs!") ++ extract_keywords (lit "(youth)").
Proof.
  apply (proj2 (proj2 (extract_keywords_vocabulary (lit "Jobs, jobs!")))).
  reflexivity.
Defined.

(** ** Vote shares and projected votes *)

Lemma Qabs_opp_eq (x : Q) : Qabs (- x) = Qabs x.
Proof. destruct x as [n d]. unfold Qabs, Qopp. simpl. now rewrite Z.abs_opp. Qed.

Lemma percentages_of_abs (values values' : list Q) (total : Q) :
  map Qabs values = map Qabs values' ->
  percentages_of values total = percentages_of values' total.
Proof.
  revert values'. induction values as [|x l IH]; intros [|x' l'] H;
    try discriminate H; [reflexivity|].
  injection H as Hx Hl. cbn [percentages_of]. now rewrite Hx, (IH l' Hl).
Qed.

Lemma vote_share_percent_abs (sv ml sv' ml' : list Q) :
  map Qabs sv = map Qabs sv' -> map Qabs ml = map Qabs ml' ->
  vote_share_percent sv ml = vote_share_percent sv' ml'.
Proof.
  intros Hs Hm. unfold vote_share_percent. rewrite Hs, Hm.
  now rewrite (percentages_of_abs sv sv' _ Hs), (percentages_of_abs ml ml' _ Hm).
Qed.

(** X7: the vote shares depend on the magnitudes of the averages only: two
    runs whose averages differ by sign alone (the same candidates have
    data, with equal absolute values) get the same shares, so a strongly
    negative average earns what the equally strong positive one does. *)
Theorem vote_shares_ignore_sign (stats stats' : candidate_averages) :
  (forall c, match stats c, stats' c with
             | Some (avg, ml_avg), Some (avg', ml_avg') =>
                 Qabs avg = Qabs avg' /\ Qabs ml_avg = Qabs ml_avg'
             | None, None => True
             | _, _ => False
             end) ->
  get_results_percent stats = get_results_percent stats'.
Proof.
  intros H. unfold get_results_percent.
  assert (Hd : forallb (has_data stats) candidates = forallb (has_data stats') candidates).
  { unfold candidates, has_data. cbn [forallb].
    pose proof (H tinubu) as Ht. pose proof (H atiku) as Ha. pose proof (H obi) as Ho.
    destruct (stats tinubu) as [[? ?]|], (stats' tinubu) as [[? ?]|]; try contradiction;
    destruct (stats atiku) as [[? ?]|], (stats' atiku) as [[? ?]|]; try contradiction;
    destruct (stats obi) as [[? ?]|], (stats' obi) as [[? ?]|]; try contradiction;
    reflexivity. }
  assert (Hs : map Qabs (collected_sentiment_values stats)
               = map Qabs (collected_sentiment_values stats')).
  { unfold collected_sentiment_values, candidates. cbn [flat_map].
    pose proof (H tinubu) as Ht. pose proof (H atiku) as Ha. pose proof (H obi) as Ho.
    destruct (stats tinubu) as [[? ?]|], (stats' tinubu) as [[? ?]|]; try contradiction;
    destruct (stats atiku) as [[? ?]|], (stats' atiku) as [[? ?]|]; try contradiction;
    destruct (stats obi) as [[? ?]|], (stats' obi) as [[? ?]|]; try contradiction;
    cbn [app map];
    repeat match goal with H : _ /\ _ |- _ => destruct H as [-> _] end; reflexivity. }
  assert (Hm : map Qabs (collected_ml_sentiment_values stats)
               = map Qabs (collected_ml_sentiment_values stats')).
  { unfold collected_ml_sentiment_values, candidates. cbn [flat_map].
    pose proof (H tinubu) as Ht. pose proof (H atiku) as Ha. pose proof (H obi) as Ho.
    destruct (stats tinubu) as [[? ?]|], (stats' tinubu) as [[? ?]|]; try contradiction;
    destruct (stats atiku) as [[? ?]|], (stats' atiku) as [[? ?]|]; try contradiction;
    destruct (stats obi) as [[? ?]|], (stats' obi) as [[? ?]|]; try contradiction;
    cbn [app map];
    repeat match goal with H : _ /\ _ |- _ => destruct H as [_ ->] end; reflexivity. }
  now rewrite Hd, (vote_share_percent_abs _ _ _ _ Hs Hm).
Qed.

Lemma vote_shares_ignore_sign_witness :
  get_results_percent mixed_averages = get_results_percent mixed_averages_flipped.
Proof.
  apply vote_shares_ignore_sign. intros c. destruct c; split; reflexivity.
Defined.

(** X8: in a run in which all three candidates have data and every average
    is an ordinary float, the percentages and votes are written without
    error, every vote share lies between 0 and 100.000000001, every
    projected vote count between 0 and the 20,000,000 electorate, and the
    three counts together never exceed the electorate and fall short of it
    by at most 3 votes. *)
Theorem projected_votes_bounds (stats : float_averages) :
  (forall c, stats c <> None) ->
  (forall c avg ml_avg, stats c = Some (avg, ml_avg) -> ordinary avg /\ ordinary ml_avg) ->
  exists qt qa qo percentages vt va vo,
    vote_shares (stored_averages stats) (engine_averages stats)
    = Ok (Binary64.Finite qt, Binary64.Finite qa, Binary64.Finite qo) /\
    (0 <= qt <= 100.000000001 /\ 0 <= qa <= 100.000000001 /\
     0 <= qo <= 100.000000001)%Q /\
    assign_percentages_and_votes stats = Ok (percentages, (vt, va, vo)) /\
    (0 <= vt <= 20000000)%Z /\ (0 <= va <= 20000000)%Z /\ (0 <= vo <= 20000000)%Z /\
    (19999997 <= vt + va + vo <= 20000000)%Z.
Proof.
  intros Hdata Ho.
  destruct (stats tinubu) as [[x x']|] eqn:Et; [|now apply Hdata in Et].
  destruct (stats atiku) as [[y y']|] eqn:Ea; [|now apply Hdata in Ea].
  destruct (stats obi) as [[z z']|] eqn:Eo; [|now apply Hdata in Eo].
  destruct (averages_lists stats _ _ _ _ _ _ Et Ea Eo) as [Hsv Hml].
  destruct (Ho _ _ _ Et) as [Ox Ox']. destruct (Ho _ _ _ Ea) as [Oy Oy'].
  destruct (Ho _ _ _ Eo) as [Oz Oz'].
  destruct x as [q1 | |], y as [q2 | |], z as [q3 | |]; try contradiction.
  destruct x' as [q1' | |], y' as [q2' | |], z' as [q3' | |]; try contradiction.
  cbn [ordinary] in *.
  destruct (tame_run q1 q2 q3 q1' q2' q3' Ox Oy Oz Ox' Oy' Oz')
    as (qt & qa & qo & vt & va & vo & R & (Nt & Na & No) & S & _ & Vt & Va & Vo & Nv & Sv).
  exists qt, qa, qo. eexists. exists vt, va, vo.
  rewrite Hsv, Hml. split; [exact R|]. split.
  - apply Qabs_Qle_condition in S. repeat split; try assumption; lra.
  - split.
    + unfold assign_percentages_and_votes. rewrite Hsv, Hml, R. cbn [bind].
      unfold results_entry. rewrite Et, Ea, Eo. cbn [bind].
      rewrite Vt, Va, Vo. cbn [bind]. reflexivity.
    + lia.
Qed.

Lemma projected_votes_bounds_witness :
  exists percentages vt va vo,
    assign_percentages_and_votes mixed_float_averages = Ok (percentages, (vt, va, vo)) /\
    (19999997 <= vt + va + vo <= 20000000)%Z.
Proof.
  destruct (projected_votes_bounds mixed_float_averages)
    as (qt & qa & qo & percentages & vt & va & vo & _ & _ & E & _ & _ & _ & H).
  - intros c D. destruct c; discriminate D.
  - intros c avg ml_avg I.
    destruct c; apply Some_pair_inj in I; destruct I as [<- <-];
      split; right; split; vm_compute; discriminate.
  - exists percentages, vt, va, vo. split; [exact E | exact H].
Defined.

(** The lower bound is met: averages 0.18, 0.09 and 0.03 give shares that
    sum to just under 100 and 19,999,997 votes. *)
Example votes_three_short :
  exists percentages,
    assign_percentages_and_votes lean_float_averages
    = Ok (percentages, (11999999, 5999999, 1999999)%Z).
Proof. eexists. vm_compute. reflexivity. Qed.

Lemma projected_votes_outcomes (percent : Binary64.float) :
  (exists v, projected_votes percent = Ok v) \/
  projected_votes percent = Raise (Exception "cannot convert float NaN to integer") \/
  projected_votes percent = Raise (Exception "cannot convert float infinity to integer").
Proof.
  unfold projected_votes, float_div. cbn [Binary64.is_zero].
  change (Qeq_bool 100 0) with false. cbn [bind].
  destruct (Binary64.mul _ _) as [q | neg |]; cbn [float_int].
  - left. eexists. reflexivity.
  - right. right. reflexivity.
  - right. left. reflexivity.
Qed.

(** X9: when a candidate has no row, writing its entry of [results] raises
    [KeyError] (which [get_results] answers with status 500), whatever the
    averages of the others, NaN and infinities included; this is the only
    way the step raises [KeyError].  When all three have data the step
    either completes or raises from [int], on a share that is NaN or
    infinite. *)
Theorem get_results_missing_candidate (stats : float_averages) :
  ((exists c, stats c = None) <->
   assign_percentages_and_votes stats = Raise KeyError) /\
  ((forall c, stats c <> None) ->
   (exists written, assign_percentages_and_votes stats = Ok written) \/
   assign_percentages_and_votes stats
   = Raise (Exception "cannot convert float NaN to integer") \/
   assign_percentages_and_votes stats
   = Raise (Exception "cannot convert float infinity to integer")).
Proof.
  assert (All : (forall c, stats c <> None) ->
    (exists written, assign_percentages_and_votes stats = Ok written) \/
    assign_percentages_and_votes stats
    = Raise (Exception "cannot convert float NaN to integer") \/
    assign_percentages_and_votes stats
    = Raise (Exception "cannot convert float infinity to integer")).
  { intros Hdata. unfold assign_percentages_and_votes.
    destruct (vote_shares_returns (stored_averages stats) (engine_averages stats))
      as ([[t a] o] & E).
    rewrite E. cbn [bind]. unfold results_entry.
    destruct (stats tinubu) eqn:Et; [|now apply Hdata in Et].
    destruct (stats atiku) eqn:Ea; [|now apply Hdata in Ea].
    destruct (stats obi) eqn:Eo; [|now apply Hdata in Eo].
    cbn [bind].
    destruct (projected_votes_outcomes t) as [(vt & ->) | [-> | ->]];
      [|right; left; reflexivity | right; right; reflexivity].
    cbn [bind].
    destruct (projected_votes_outcomes a) as [(va & ->) | [-> | ->]];
      [|right; left; reflexivity | right; right; reflexivity].
    cbn [bind].
    destruct (projected_votes_outcomes o) as [(vo & ->) | [-> | ->]];
      [|right; left; reflexivity | right; right; reflexivity].
    cbn [bind]. left. eexists. reflexivity. }
  split; [|exact All]. split.
  - intros (c & Hc). unfold assign_percentages_and_votes.
    destruct (vote_shares_returns (stored_averages stats) (engine_averages stats))
      as ([[t a] o] & E).
    rewrite E. cbn [bind]. unfold results_entry.
    destruct (stats tinubu) eqn:Et; [|reflexivity].
    destruct (stats atiku) eqn:Ea; [|reflexivity].
    destruct (stats obi) eqn:Eo; [|reflexivity].
    destruct c; congruence.
  - intros E.
    destruct (stats tinubu) eqn:Et; [|now exists tinubu].
    destruct (stats atiku) eqn:Ea; [|now exists atiku].
    destruct (stats obi) eqn:Eo; [|now exists obi].
    exfalso.
    assert (Hdata : forall c, stats c <> None) by (intros c; destruct c; congruence).
    destruct (All Hdata) as [(w & H) | [H | H]]; rewrite H in E; discriminate E.
Qed.

Lemma get_results_missing_candidate_witness :
  assign_percentages_and_votes float_averages_without_atiku = Raise KeyError /\
  assign_percentages_and_votes nan_averages
  = Raise (Exception "cannot convert float NaN to integer").
Proof.
  split.
  - apply (proj1 (proj1 (get_results_missing_candidate float_averages_without_atiku))).
    exists atiku. reflexivity.
  - destruct (proj2 (get_results_missing_candidate nan_averages)) as [(w & H) | [H | H]].
    + intros c D. destruct c; discriminate D.
    + vm_compute in H. discriminate H.
    + exact H.
    + vm_compute in H. discriminate H.
Defined.

(** ** Engagement on any sample *)

Lemma py_sum_from (xs : list Z) (acc : Z) :
  fold_left Z.add xs acc = (acc + py_sum xs)%Z.
Proof.
  unfold py_sum. revert acc. induction xs as [|x xs IH]; intros acc; simpl; [lia|].
  rewrite (IH (acc + x)%Z), (IH x). lia.
Qed.

Lemma py_sum_cons (x : Z) (xs : list Z) : py_sum (x :: xs) = (x + py_sum xs)%Z.
Proof. unfold py_sum at 1. simpl. now rewrite py_sum_from. Qed.

Lemma py_sum_between (lo hi : Z) (xs : list Z) :
  Forall (fun x => lo <= x <= hi)%Z xs ->
  (lo * len xs <= py_sum xs <= hi * len xs)%Z.
Proof.
  unfold len. induction 1 as [|x xs Hx Hxs IH]; [simpl; unfold py_sum; simpl; lia|].
  rewrite py_sum_cons. simpl length. lia.
Qed.

Lemma average_between (lo hi : Z) (xs : list Z) :
  xs <> [] -> (Z.abs (py_sum xs) < 2 ^ 53)%Z ->
  Forall (fun x => lo <= x <= hi)%Z xs ->
  exists q, average xs = Ok q /\ (lo <= q <= hi)%Z.
Proof.
  intros Hne B Hall. rewrite (average_nonempty xs Hne B). eexists. split; [reflexivity|].
  pose proof (py_sum_between lo hi xs Hall) as [L U].
  assert (Hn : (0 < len xs)%Z) by (unfold len; destruct xs; [contradiction | simpl; lia]).
  split.
  - rewrite <- (Z.quot_mul lo (len xs)) by lia. apply Z.quot_le_mono; lia.
  - rewrite <- (Z.quot_mul hi (len xs)) by lia. apply Z.quot_le_mono; lia.
Qed.

(** X10: the engagement summary of the empty sample is all zeros, with no
    division; on a sample whose like and retweet sums are below [2^53] in
    magnitude it is computed without error, and each average lies between
    the smallest and the largest value it averages. *)
Theorem engagement_total_and_bounded (sample : list row) :
  (sample = [] ->
   engagement_of sample = Ok {| avg_likes := 0; avg_retweets := 0; total_reach := 0 |}) /\
  ((Z.abs (py_sum (map likes sample)) < 2 ^ 53)%Z ->
   (Z.abs (py_sum (map retweets sample)) < 2 ^ 53)%Z ->
   exists e,
     engagement_of sample = Ok e /\
     (forall lo hi, sample <> [] ->
        (forall r, In r sample -> (lo <= likes r <= hi)%Z) ->
        (lo <= avg_likes e <= hi)%Z) /\
     (forall lo hi, sample <> [] ->
        (forall r, In r sample -> (lo <= retweets r <= hi)%Z) ->
        (lo <= avg_retweets e <= hi)%Z)).
Proof.
  split; [intros ->; reflexivity|]. intros Bl Br.
  destruct sample as [|r0 sample].
  - eexists. split; [reflexivity|].
    split; intros lo hi H; now contradiction H.
  - assert (Hl : map likes (r0 :: sample) <> []) by discriminate.
    assert (Hr : map retweets (r0 :: sample) <> []) by discriminate.
    unfold engagement_of.
    rewrite (average_nonempty _ Hl Bl), (average_nonempty _ Hr Br). cbn [bind].
    eexists. split; [reflexivity|]. cbn [avg_likes avg_retweets total_reach]. split.
    + intros lo hi _ H.
      destruct (average_between lo hi (map likes (r0 :: sample)) Hl Bl) as (q & Hq & B).
      { apply Forall_map, Forall_forall. exact H. }
      rewrite (average_nonempty _ Hl Bl) in Hq. apply Ok_inj in Hq. rewrite Hq. exact B.
    + intros lo hi _ H.
      destruct (average_between lo hi (map retweets (r0 :: sample)) Hr Br) as (q & Hq & B).
      { apply Forall_map, Forall_forall. exact H. }
      rewrite (average_nonempty _ Hr Br) in Hq. apply Ok_inj in Hq. rewrite Hq. exact B.
Qed.

Lemma engagement_total_and_bounded_witness :
  exists e, engagement_of (map row_of_likes [4; 9; 7]%Z) = Ok e /\
            (4 <= avg_likes e <= 9)%Z.
Proof.
  destruct (proj2 (engagement_total_and_bounded (map row_of_likes [4; 9; 7]%Z)))
    as (e & He & Hl & _).
  - vm_compute. reflexivity.
  - vm_compute. reflexivity.
  - exists e. split; [exact He|]. apply Hl; [discriminate|].
    intros r Hr. simpl in Hr. destruct Hr as [<-|[<-|[<-|[]]]]; simpl; lia.
Defined.

(** Beyond [2^53] the float quotient shows: a single record with
    [2^53 + 1] likes is reported with [2^53], below the only value
    averaged, and a sum beyond the largest float makes the division raise
    [OverflowError]. *)
Example engagement_beyond_exact_range :
  engagement_of [row_of_likes 9007199254740993]
  = Ok {| avg_likes := 9007199254740992; avg_retweets := 0;
          total_reach := 9007199254740993 |} /\
  engagement_of [row_of_likes (10 ^ 400)]
  = Raise (Exception "integer division result too large for a float").
Proof. split; vm_compute; reflexivity. Qed.

(** ** The home page *)

Lemma home_check_all :
  forallb (fun ts =>
    forallb (fun ta => forallb (fun to => home_check ts ta to) score_values)
            score_values) score_values = true.
Proof. vm_compute. reflexivity. Qed.

Lemma home_check_scores (ts ta to : Q) :
  In ts score_values -> In ta score_values -> In to score_values ->
  home_check ts ta to = true.
Proof.
  intros Hs Ha Ho. pose proof home_check_all as H.
  rewrite forallb_forall in H. specialize (H ts Hs).
  rewrite forallb_forall in H. specialize (H ta Ha).
  rewrite forallb_forall in H. exact (H to Ho).
Qed.

(** X11: up to its call of [render], [home] raises nothing.  Its three
    percentages are finite; they sum to 100 within 0.02 and the three vote
    counts to the 20,000,000 electorate less at most 2, unless the three
    sample sentences all score 0, in which case every percentage and vote
    count is 0 (no default split here); and without both artifacts, under
    the rule-based scorer, the three sentences do score 0, so every card
    shows 0 percent, sentiment 0 and 0 votes. *)
Theorem home_cards {features : Type} (self : EnhancedSentimentAnalyzer features) :
  (exists ts ta to c1 c2 c3 p1 p2 p3,
      analyze_sentiment self (PyStr sample_tinubu) = Ok ts /\
      analyze_sentiment self (PyStr sample_atiku) = Ok ta /\
      analyze_sentiment self (PyStr sample_obi) = Ok to /\
      home_context self = Ok (c1, c2, c3) /\
      card_percentage c1 = Binary64.Finite p1 /\
      card_percentage c2 = Binary64.Finite p2 /\
      card_percentage c3 = Binary64.Finite p3 /\
      ((ts == 0 /\ ta == 0 /\ to == 0)%Q ->
       (p1 == 0 /\ p2 == 0 /\ p3 == 0)%Q /\
       card_votes c1 = 0%Z /\ card_votes c2 = 0%Z /\ card_votes c3 = 0%Z) /\
      (~ (ts == 0 /\ ta == 0 /\ to == 0)%Q ->
       (99.98 <= p1 + p2 + p3 <= 100.02)%Q /\
       (19999998 <= card_votes c1 + card_votes c2 + card_votes c3 <= 20000000)%Z)) /\
  (model self = None \/ vectorizer self = None ->
   home_context self = Ok (zero_card, zero_card, zero_card)).
Proof.
  split.
  - destruct (analyze_sentiment_value self (PyStr sample_tinubu)) as (ts & Hs & Vs).
    destruct (analyze_sentiment_value self (PyStr sample_atiku)) as (ta & Ha & Va).
    destruct (analyze_sentiment_value self (PyStr sample_obi)) as (to & Ho & Vo).
    pose proof (home_check_scores ts ta to Vs Va Vo) as C.
    unfold home_check in C. unfold home_context. rewrite Hs, Ha, Ho. cbn [bind].
    destruct (home_cards_of _ _ _) as [[[c1 c2] c3] | e]; [|discriminate C].
    destruct (card_percentage c1) as [p1 | |] eqn:E1; try discriminate C.
    destruct (card_percentage c2) as [p2 | |] eqn:E2; try discriminate C.
    destruct (card_percentage c3) as [p3 | |] eqn:E3; try discriminate C.
    exists ts, ta, to, c1, c2, c3, p1, p2, p3.
    do 4 (split; [reflexivity|]).
    split; [exact E1|]. split; [exact E2|]. split; [exact E3|].
    destruct (Qeq_bool ts 0 && Qeq_bool ta 0 && Qeq_bool to 0) eqn:Z.
    + rewrite !andb_true_iff in Z. rewrite !andb_true_iff in C.
      destruct Z as [[Z1 Z2] Z3]. destruct C as [[[[[C1 C2] C3] C4] C5] C6].
      apply Qeq_bool_eq in Z1, Z2, Z3, C1, C2, C3. apply Z.eqb_eq in C4, C5, C6.
      split; [intros _; tauto|]. intros H. exfalso. apply H. tauto.
    + split.
      * intros (Z1 & Z2 & Z3). apply Qeq_eq_bool in Z1, Z2, Z3.
        rewrite Z1, Z2, Z3 in Z. discriminate Z.
      * intros _. rewrite !andb_true_iff in C. destruct C as [[[C1 C2] C3] C4].
        apply Qle_bool_iff in C1, C2. apply Z.leb_le in C3, C4. tauto.
  - intros H. unfold home_context. rewrite !(analyze_sentiment_rule_based self _ H).
    vm_compute. reflexivity.
Qed.

Lemma home_cards_witness :
  home_context rule_based_only = Ok (zero_card, zero_card, zero_card).
Proof.
  apply (proj2 (home_cards rule_based_only)). left. reflexivity.
Defined.

(** With the artifacts loaded and every sentence labelled positive, each
    candidate is shown with 33.33 percent and 6,666,666 votes. *)
Example home_three_equal_scores :
  exists c1 c2 c3,
    home_context always_positive = Ok (c1, c2, c3) /\
    card_percentage c1 = Binary64.round64 33.33 /\
    (card_votes c1, card_votes c2, card_votes c3) = (6666666, 6666666, 6666666)%Z.
Proof. do 3 eexists. vm_compute. repeat split. Qed.

(** ** The single-tweet endpoint *)

Lemma round4_of_score (score : Q) :
  In score score_values -> (py_round_digits score 4 == score)%Q.
Proof.
  intros H. unfold score_values in H. simpl In in H.
  repeat (destruct H as [H | H]; [rewrite <- H; vm_compute; reflexivity|]).
  destruct H.
Qed.

Lemma sentiment_label_sign (score : Q) :
  ((0 < score)%Q -> sentiment_label score = "Positive"%string) /\
  ((score < 0)%Q -> sentiment_label score = "Negative"%string) /\
  ((score == 0)%Q -> sentiment_label score = "Neutral"%string).
Proof.
  unfold sentiment_label. split; [|split]; intros H.
  - now rewrite (Qle_bool_false score 0 H).
  - rewrite (Qle_bool_true score 0) by lra. now rewrite (Qle_bool_false 0 score H).
  - rewrite (Qle_bool_true score 0) by lra. now rewrite (Qle_bool_true 0 score) by lra.
Qed.

(** X12: [analyze_single_tweet] always answers: 405 for a method other than
    POST; 500 exactly when the method is POST and reading [request.POST]
    raises, with the exception's message; 400 when the text is missing or
    empty; and otherwise the text with the engine's score (which rounding
    to four decimals leaves unchanged) and the label of its sign. *)
Theorem analyze_single_tweet_answers {features : Type}
    (self : EnhancedSentimentAnalyzer features)
    (method : string) (post : result (option str)) :
  exists response,
    analyze_single_tweet self method post = Ok response /\
    ((exists message, response = JsonError 500 message) <->
     method = "POST"%string /\ exists e, post = Raise e) /\
    (method <> "POST"%string -> response = JsonError 405 "Method not allowed") /\
    (forall e, method = "POST"%string -> post = Raise e ->
       response = JsonError 500 ("Analysis failed: " ++ exn_message e)) /\
    (method = "POST"%string -> post = Ok None \/ post = Ok (Some []) ->
     response = JsonError 400 "No text provided") /\
    (forall text, method = "POST"%string -> post = Ok (Some text) -> text <> [] ->
       exists score rounded label kind,
         analyze_sentiment self (PyStr text) = Ok score /\
         response = JsonOk text rounded label kind /\
         (rounded == score)%Q /\
         ((0 < score)%Q -> label = "Positive"%string) /\
         ((score < 0)%Q -> label = "Negative"%string) /\
         ((score == 0)%Q -> label = "Neutral"%string)).
Proof.
  unfold analyze_single_tweet.
  destruct (String.eqb method "POST") eqn:M.
  - apply String.eqb_eq in M.
    destruct post as [[[|c text]|]|e]; cbn [bind try_except].
    + eexists. split; [reflexivity|].
      split; [split; [intros (m & D); discriminate D | intros (_ & e & D); discriminate D]|].
      split; [intros H; now contradiction H|].
      split; [intros e _ D; discriminate D|]. split; [reflexivity|].
      intros text _ E Hne. apply Ok_inj in E. injection E as <-. now contradiction Hne.
    + destruct (analyze_sentiment_value self (PyStr (c :: text))) as (score & Hs & Hv).
      rewrite Hs. cbn [bind try_except].
      eexists. split; [reflexivity|].
      split; [split; [intros (m & D); discriminate D | intros (_ & e & D); discriminate D]|].
      split; [intros H; now contradiction H|].
      split; [intros e _ D; discriminate D|].
      split; [intros _ [H | H]; discriminate H|].
      intros text' _ E _. apply Ok_inj in E. injection E as <-.
      destruct (sentiment_label_sign score) as (P & N & Z).
      do 4 eexists. split; [exact Hs|]. split; [reflexivity|].
      split; [now apply round4_of_score|]. now repeat split.
    + eexists. split; [reflexivity|].
      split; [split; [intros (m & D); discriminate D | intros (_ & e & D); discriminate D]|].
      split; [intros H; now contradiction H|].
      split; [intros e _ D; discriminate D|]. split; [reflexivity|].
      intros text _ E. discriminate E.
    + eexists. split; [reflexivity|].
      split; [split; [intros _; split; [exact M | now exists e] | intros _; eexists; reflexivity]|].
      split; [intros H; now contradiction H|].
      split; [intros e' _ D; injection D as <-; reflexivity|].
      split; [intros _ [H | H]; discriminate H|].
      intros text _ E. discriminate E.
  - apply String.eqb_neq in M.
    eexists. split; [reflexivity|].
    split; [split; [intros (m & D); discriminate D | intros (H & _); now contradiction M]|].
    split; [reflexivity|].
    split; [intros e H; now contradiction M|].
    split; [intros H; now contradiction M|].
    intros text H. now contradiction M.
Qed.

Lemma analyze_single_tweet_answers_witness :
  (exists response,
     analyze_single_tweet rule_based_only "POST" (Ok (Some (lit "A great day"))) = Ok response /\
     exists score rounded label kind,
       analyze_sentiment rule_based_only (PyStr (lit "A great day")) = Ok score /\
       response = JsonOk (lit "A great day") rounded label kind /\
       (rounded == score)%Q) /\
  analyze_single_tweet rule_based_only "POST" (Raise (Exception "request body too large"))
  = Ok (JsonError 500 "Analysis failed: request body too large").
Proof.
  split.
  - destruct (analyze_single_tweet_answers rule_based_only "POST"
                (Ok (Some (lit "A great day"))))
      as (response & E & _ & _ & _ & _ & H).
    exists response. split; [exact E|].
    destruct (H (lit "A great day") eq_refl eq_refl) as (s & r & l & k & Hs & Hr & Hq & _).
    + discriminate.
    + exists s, r, l, k. split; [exact Hs|]. split; [exact Hr | exact Hq].
  - destruct (analyze_single_tweet_answers rule_based_only "POST"
                (Raise (Exception "request body too large")))
      as (response & E & _ & _ & H & _).
    rewrite E. f_equal. exact (H _ eq_refl eq_refl).
Defined.

(** ** The Twitter fallback *)

(** X13: [get_twitter_sentiment] raises nothing.  When an API key is set
    (a non-empty string) it reaches its end without returning and yields
    [None]; when the key is unset or empty it gives each of the three
    candidates five scores, all equal to the engine's score of
    "<candidate> is doing well", and these are all 0.0 under the
    rule-based scorer. *)
Theorem get_twitter_sentiment_outcome {features : Type}
    (self : EnhancedSentimentAnalyzer features) (api_key : option str) :
  (forall key, api_key = Some key -> key <> [] ->
     get_twitter_sentiment self api_key = Ok None) /\
  (api_key = None \/ api_key = Some [] ->
   exists ts ta to,
     analyze_sentiment self (PyStr (lit "tinubu is doing well")) = Ok ts /\
     analyze_sentiment self (PyStr (lit "atiku is doing well")) = Ok ta /\
     analyze_sentiment self (PyStr (lit "obi is doing well")) = Ok to /\
     get_twitter_sentiment self api_key
     = Ok (Some [ (lit "tinubu", repeat ts 5);
                  (lit "atiku", repeat ta 5);
                  (lit "obi", repeat to 5) ]) /\
     (model self = None \/ vectorizer self = None ->
      ts = 0.0%Q /\ ta = 0.0%Q /\ to = 0.0%Q)).
Proof.
  split.
  - intros key -> Hne. destruct key; [now contradiction Hne | reflexivity].
  - intros Hkey.
    destruct (analyze_sentiment_returns self (PyStr (lit "tinubu is doing well")))
      as (ts & Hs & _).
    destruct (analyze_sentiment_returns self (PyStr (lit "atiku is doing well")))
      as (ta & Ha & _).
    destruct (analyze_sentiment_returns self (PyStr (lit "obi is doing well")))
      as (to & Ho & _).
    exists ts, ta, to. split; [exact Hs|]. split; [exact Ha|]. split; [exact Ho|]. split.
    + assert (E : fallback_scores self (lit " is doing well") (lit " is not good")
                  = Ok [ (lit "tinubu", repeat ts 5);
                         (lit "atiku", repeat ta 5);
                         (lit "obi", repeat to 5) ]).
      { unfold fallback_scores, fallback_sentiments.
        change (lit "tinubu is doing well")
          with (lit "tinubu" ++ lit " is doing well") in Hs.
        change (lit "atiku is doing well")
          with (lit "atiku" ++ lit " is doing well") in Ha.
        change (lit "obi is doing well")
          with (lit "obi" ++ lit " is doing well") in Ho.
        cbn [comprehension]. cbn [Qle_bool Qnum Qden Z.mul Z.leb Z.compare negb
                                  Pos.mul Pos.compare Pos.compare_cont].
        rewrite Hs, Ha, Ho. reflexivity. }
      unfold get_twitter_sentiment.
      destruct Hkey as [-> | ->]; rewrite E; reflexivity.
    + intros H. rewrite (analyze_sentiment_rule_based self _ H) in Hs.
      rewrite (analyze_sentiment_rule_based self _ H) in Ha.
      rewrite (analyze_sentiment_rule_based self _ H) in Ho.
      apply Ok_inj in Hs. apply Ok_inj in Ha. apply Ok_inj in Ho.
      rewrite <- Hs, <- Ha, <- Ho. repeat split; vm_compute; reflexivity.
Qed.

Lemma get_twitter_sentiment_outcome_witness :
  get_twitter_sentiment rule_based_only (Some (lit "k3y")) = Ok None.
Proof.
  apply (proj1 (get_twitter_sentiment_outcome rule_based_only (Some (lit "k3y")))
           (lit "k3y") eq_refl).
  discriminate.
Defined.

(** ** Splitting, joining and [clean_tweet] *)

Lemma split_from_token (cur w : str) :
  Forall (fun c => is_space c = false) w ->
  split_from cur w = match rev cur ++ w with [] => [] | _ :: _ => [rev cur ++ w] end.
Proof.
  intros H. revert cur. induction H as [|c w Hc Hw IH]; intros cur.
  - cbn [split_from]. rewrite app_nil_r. destruct cur as [|a cur]; [reflexivity|].
    destruct (rev (a :: cur)) eqn:E; [|reflexivity].
    apply (f_equal (@length ascii)) in E. rewrite length_rev in E. discriminate E.
  - cbn [split_from]. rewrite Hc, IH. cbn [rev]. now rewrite <- app_assoc.
Qed.

Lemma split_token (w : str) : is_token w -> split w = [w].
Proof.
  intros [Hne H]. unfold split. rewrite (split_from_token [] w H). simpl.
  destruct w; [contradiction | reflexivity].
Qed.

Lemma split_from_tokens (P : ascii -> Prop) (cur s : str) :
  Forall (fun c => is_space c = false /\ P c) cur ->
  Forall P s ->
  Forall (fun w => is_token w /\ Forall P w) (split_from cur s).
Proof.
  intros Hcur Hs. revert cur Hcur. induction Hs as [|c s Hc Hs IH]; intros cur Hcur.
  - cbn [split_from]. destruct cur as [|a cur]; constructor; [|constructor].
    apply Forall_rev in Hcur. split; [split|].
    + intros E. apply (f_equal (@length ascii)) in E. rewrite length_rev in E.
      discriminate E.
    + revert Hcur. apply Forall_impl. tauto.
    + revert Hcur. apply Forall_impl. tauto.
  - cbn [split_from]. destruct (is_space c) eqn:E.
    + destruct cur as [|a cur]; [apply IH; constructor|].
      constructor; [|apply IH; constructor].
      apply Forall_rev in Hcur. split; [split|].
      * intros D. apply (f_equal (@length ascii)) in D. rewrite length_rev in D.
        discriminate D.
      * revert Hcur. apply Forall_impl. tauto.
      * revert Hcur. apply Forall_impl. tauto.
    + apply IH. constructor; [split; assumption | exact Hcur].
Qed.

Lemma join_space_cons (w : str) (rest : list str) :
  rest <> [] -> join_space (w :: rest) = w ++ space :: join_space rest.
Proof. destruct rest; [contradiction | reflexivity]. Qed.

Lemma split_join_tokens (words : list str) :
  Forall is_token words -> split (join_space words) = words.
Proof.
  induction 1 as [|w rest Hw Hrest IH]; [reflexivity|].
  destruct rest as [|w' rest'].
  - cbn [join_space]. now apply split_token.
  - rewrite join_space_cons by discriminate.
    rewrite split_app by reflexivity. now rewrite (split_token w Hw), IH.
Qed.

(** X14: [split] returns tokens only (non-empty, free of whitespace), and
    joining tokens with single spaces and splitting again gives the tokens
    back; so [' '.join(s.split())] is unchanged by a second pass. *)
Theorem split_join_round_trip (s : str) :
  Forall is_token (split s) /\
  (forall words, Forall is_token words -> split (join_space words) = words) /\
  join_space (split (join_space (split s))) = join_space (split s).
Proof.
  assert (T : Forall is_token (split s)).
  { pose proof (split_from_tokens (fun _ => True) [] s (Forall_nil _)) as H.
    assert (A : Forall (fun _ : ascii => True) s) by (apply Forall_forall; tauto).
    specialize (H A). revert H. apply Forall_impl. tauto. }
  split; [exact T|]. split; [exact split_join_tokens|].
  now rewrite (split_join_tokens _ T).
Qed.

Lemma split_join_round_trip_witness :
  split (join_space [lit "a"; lit "bc"]) = [lit "a"; lit "bc"].
Proof.
  apply (proj1 (proj2 (split_join_round_trip []))).
  repeat constructor; try discriminate.
Defined.

Lemma pat_tweet_emits (c : ascii) (r : str) :
  pat_tweet (c :: r) = None ->
  is_ascii_alnum c = true \/ is_space c = true.
Proof.
  unfold pat_tweet.
  destruct (if Ascii.eqb c "@" then take_while is_ascii_alnum r else []);
    [|discriminate].
  destruct (is_ascii_alnum c) eqn:A; [now left|].
  destruct (Ascii.eqb c space) eqn:S; [apply Ascii.eqb_eq in S; subst c; now right|].
  destruct (Ascii.eqb c tab) eqn:T; [apply Ascii.eqb_eq in T; subst c; now right|].
  discriminate.
Qed.

Lemma pat_tweet_some (s repl : str) (n : nat) :
  pat_tweet s = Some (repl, n) -> repl = [space].
Proof.
  unfold pat_tweet. destruct s as [|c r]; [discriminate|].
  destruct (if Ascii.eqb c "@" then take_while is_ascii_alnum r else []);
    [|congruence].
  destruct (negb (is_ascii_alnum c || Ascii.eqb c space || Ascii.eqb c tab));
    [congruence|].
  destruct (take_while is_word (c :: r)); [discriminate|].
  destruct (startswith (lit "://") _); [|discriminate].
  destruct (take_while _ _); congruence.
Qed.

Lemma alnum_not_space (c : ascii) : is_ascii_alnum c = true -> is_space c = false.
Proof. destruct c as [[] [] [] [] [] [] [] []]; vm_compute; congruence. Qed.

Lemma join_space_Forall (P : ascii -> Prop) (words : list str) :
  P space -> Forall (Forall P) words -> Forall P (join_space words).
Proof.
  intros Hs. induction 1 as [|w rest Hw Hrest IH]; [constructor|].
  destruct rest as [|w' rest']; [exact Hw|].
  rewrite join_space_cons by discriminate.
  apply Forall_app. split; [exact Hw | now constructor].
Qed.

Lemma skipn_Forall (P : ascii -> Prop) (n : nat) (s : str) :
  Forall P s -> Forall P (skipn n s).
Proof.
  intros H. rewrite <- (firstn_skipn n s) in H. now apply Forall_app in H.
Qed.

Lemma plain_no_match (s : str) :
  Forall (fun c => is_ascii_alnum c = true \/ c = space) s -> no_match pat_tweet s.
Proof.
  intros H. induction H as [|c r Hc Hr IH]; [constructor|].
  split; [|exact IH]. unfold pat_tweet.
  assert (Hat : Ascii.eqb c "@" = false).
  { destruct Hc as [A | ->]; [|reflexivity].
    destruct (Ascii.eqb c "@") eqn:E; [|reflexivity].
    apply Ascii.eqb_eq in E. subst c. discriminate A. }
  rewrite Hat.
  assert (Hplain : negb (is_ascii_alnum c || Ascii.eqb c space || Ascii.eqb c tab) = false).
  { destruct Hc as [-> | ->]; reflexivity. }
  rewrite Hplain.
  destruct (take_while is_word (c :: r)) as [|a scheme]; [reflexivity|].
  destruct (startswith (lit "://") (skipn (length (a :: scheme)) (c :: r))) eqn:E;
    [|reflexivity].
  exfalso. apply startswith_spec in E. destruct E as (rest & E).
  assert (F : Forall (fun c => is_ascii_alnum c = true \/ c = space)
                     (skipn (length (a :: scheme)) (c :: r))).
  { apply skipn_Forall. now constructor. }
  rewrite E in F. inversion F as [|? ? [A | A] _]; discriminate A.
Qed.

(** X15: [clean_tweet] returns ASCII letters, digits and spaces only, in
    the form [' '.join] gives whitespace-free words (single spaces between
    them, none at either end); its words are those left by the
    substitution; and applying it to its own result changes nothing. *)
Theorem clean_tweet_idempotent (tweet : str) :
  let cleaned := clean_tweet tweet in
  Forall (fun c => is_ascii_alnum c = true \/ c = space) cleaned /\
  join_space (split cleaned) = cleaned /\
  split cleaned = split (re_sub pat_tweet tweet) /\
  Forall (fun w => is_token w /\ Forall (fun c => is_ascii_alnum c = true) w)
         (split cleaned) /\
  clean_tweet cleaned = cleaned.
Proof.
  cbv zeta. unfold clean_tweet at 1 2 3 4 5 7.
  set (x := re_sub pat_tweet tweet).
  assert (Hx : Forall (fun c => is_ascii_alnum c = true \/ is_space c = true) x).
  { apply re_scan_emits.
    - exact pat_tweet_emits.
    - intros s repl n E. rewrite (pat_tweet_some _ _ _ E). constructor; [|constructor].
      now right. }
  pose proof (split_from_tokens _ [] x (Forall_nil _) Hx) as Ht. fold (split x) in Ht.
  assert (Hw : Forall (fun w => is_token w /\ Forall (fun c => is_ascii_alnum c = true) w)
                      (split x)).
  { revert Ht. apply Forall_impl. intros w [Tok Hc]. split; [exact Tok|].
    destruct Tok as [_ Hns]. rewrite Forall_forall in *. intros c Hin.
    destruct (Hc c Hin) as [A | S]; [exact A|]. rewrite (Hns c Hin) in S. discriminate S. }
  assert (Htok : Forall is_token (split x)) by (revert Hw; apply Forall_impl; tauto).
  assert (Hplain : Forall (fun c => is_ascii_alnum c = true \/ c = space)
                          (join_space (split x))).
  { apply join_space_Forall; [now right|].
    revert Hw. apply Forall_impl. intros w [_ Hc]. revert Hc. apply Forall_impl. tauto. }
  assert (Hsplit : split (join_space (split x)) = split x)
    by now apply split_join_tokens.
  split; [exact Hplain|]. split; [now rewrite Hsplit|].
  split; [exact Hsplit|]. split; [now rewrite Hsplit|].
  unfold clean_tweet. rewrite (re_sub_no_match _ _ (plain_no_match _ Hplain)).
  now rewrite Hsplit.
Qed.

(** ** Cleaning settles after two passes *)

Lemma pat_url_at_space (d : ascii) (r : str) :
  is_space d = true -> pat_url (d :: r) = None.
Proof.
  intros H. unfold pat_url. cbn [lit list_ascii_of_string startswith].
  destruct (Ascii.eqb "h" d) eqn:E; [|reflexivity].
  apply Ascii.eqb_eq in E. subst d. discriminate H.
Qed.

Lemma re_sub_url_cons (c : ascii) (r : str) :
  re_sub pat_url (c :: r) =
  match pat_url (c :: r) with
  | Some _ => re_sub pat_url (drop_while (fun d => negb (is_space d)) (skipn 4 (c :: r)))
  | None => c :: re_sub pat_url r
  end.
Proof.
  unfold re_sub. cbn [re_scan].
  destruct (pat_url (c :: r)) as [[repl n]|] eqn:E; [|reflexivity].
  unfold pat_url in E. destruct (startswith (lit "http") (c :: r)); [|discriminate E].
  destruct (take_while (fun d => negb (is_space d)) (skipn 4 (c :: r)))
    as [|a l] eqn:T; [discriminate E|].
  injection E as <- <-. cbn [app]. rewrite re_scan_skip. f_equal.
  rewrite <- skipn_take_while, T.
  rewrite skipn_skipn. cbn [length Nat.pred].
  replace (S (length l) + 4)%nat with (S (4 + length l)) by lia. reflexivity.
Qed.

Lemma drop_nonspace_head (s : str) :
  match drop_while (fun d => negb (is_space d)) s with
  | [] => True
  | d :: _ => is_space d = true
  end.
Proof.
  induction s as [|c r IH]; [exact I|]. simpl.
  destruct (is_space c) eqn:E; simpl; [exact E | exact IH].
Qed.

Lemma re_sub_url_after_match (s : str) :
  match re_sub pat_url (drop_while (fun d => negb (is_space d)) s) with
  | [] => True
  | d :: _ => is_space d = true
  end.
Proof.
  pose proof (drop_nonspace_head s) as H.
  destruct (drop_while (fun d => negb (is_space d)) s) as [|d r]; [exact I|].
  rewrite re_sub_url_cons, (pat_url_at_space d r H). exact H.
Qed.

Lemma startswith_url_removed (w s : str) :
  w <> [] -> Forall (fun c => is_space c = false) w ->
  startswith w (re_sub pat_url s) = true -> startswith w s = true.
Proof.
  intros Hne Hw. revert s Hne.
  induction Hw as [|a w Ha Hw IH]; intros s Hne; [contradiction|].
  destruct s as [|c r]; [discriminate|].
  rewrite re_sub_url_cons. destruct (pat_url (c :: r)) eqn:E.
  - pose proof (re_sub_url_after_match (skipn 4 (c :: r))) as H.
    destruct (re_sub pat_url _) as [|d out]; [discriminate|].
    cbn [startswith]. destruct (Ascii.eqb a d) eqn:A; [|discriminate].
    apply Ascii.eqb_eq in A. subst d. congruence.
  - cbn [startswith]. rewrite !andb_true_iff. intros [A S]. split; [exact A|].
    destruct w as [|b w']; [reflexivity|]. apply IH; [discriminate | exact S].
Qed.

Lemma has_url_head (s : str) :
  startswith (lit "http") s &&
  match skipn 4 s with
  | c :: _ => negb (is_space c)
  | [] => false
  end = true <->
  exists c, is_space c = false /\ startswith (lit "http" ++ [c]) s = true.
Proof.
  rewrite andb_true_iff. split.
  - intros [H D]. apply startswith_spec in H. destruct H as (rest & ->).
    simpl skipn in D. destruct rest as [|c rest]; [discriminate|].
    exists c. split; [now destruct (is_space c)|].
    apply startswith_spec. now exists rest.
  - intros (c & Hc & H). apply startswith_spec in H. destruct H as (rest & ->).
    split; [reflexivity|]. simpl. now rewrite Hc.
Qed.

Lemma url_token_spaceless (c : ascii) :
  is_space c = false -> Forall (fun d => is_space d = false) (lit "http" ++ [c]).
Proof. intros H. repeat constructor; assumption. Qed.

Lemma url_removed_bounded (n : nat) (s : str) :
  (length s <= n)%nat -> has_url (re_sub pat_url s) = false.
Proof.
  revert s. induction n as [|n IH]; intros s Hn.
  - destruct s; [reflexivity | simpl in Hn; lia].
  - destruct s as [|c r]; [reflexivity|]. simpl in Hn.
    pose proof (re_sub_url_cons c r) as R.
    destruct (pat_url (c :: r)) eqn:E.
    + rewrite R. apply IH.
      pose proof (drop_while_length (fun d => negb (is_space d)) (skipn 4 (c :: r))).
      pose proof (length_skipn 4 (c :: r)). simpl length in *. lia.
    + rewrite R. cbn [has_url]. rewrite (IH r) by lia. rewrite orb_false_r.
      destruct (startswith (lit "http") (c :: re_sub pat_url r) &&
                match skipn 4 (c :: re_sub pat_url r) with
                | d :: _ => negb (is_space d)
                | [] => false
                end) eqn:H; [|reflexivity].
      exfalso. apply has_url_head in H. destruct H as (d & Hd & H).
      rewrite <- R in H.
      apply startswith_url_removed in H;
        [| destruct (lit "http" ++ [d]) eqn:D; discriminate | now apply url_token_spaceless].
      assert (G : startswith (lit "http") (c :: r) &&
                  match skipn 4 (c :: r) with
                  | x :: _ => negb (is_space x)
                  | [] => false
                  end = true) by (apply has_url_head; now exists d).
      rewrite (pat_url_none c r E) in G. discriminate G.
Qed.

Lemma strip_by_middle (p : ascii -> bool) (s : str) :
  exists front back, s = front ++ strip_by p s ++ back.
Proof.
  unfold strip_by.
  set (d := drop_while p s).
  exists (firstn (length (take_while p s)) s),
         (rev (firstn (length (take_while p (rev d))) (rev d))).
  rewrite <- rev_app_distr.
  rewrite <- (skipn_take_while p (rev d)), firstn_skipn, rev_involutive.
  unfold d. rewrite <- skipn_take_while. symmetry. apply firstn_skipn.
Qed.

Lemma occurs_inside (w front s back : str) :
  occurs w s -> occurs w (front ++ s ++ back).
Proof.
  intros (pre & post & ->). exists (front ++ pre), (post ++ back).
  now rewrite <- !app_assoc.
Qed.

Lemma startswith_collapse (w s : str) :
  Forall (fun c => is_space c = false) w ->
  startswith w (re_sub pat_spaces s) = true -> startswith w s = true.
Proof.
  intros Hw. revert s. induction Hw as [|a w Ha Hw IH]; intros s; [reflexivity|].
  destruct s as [|c r]; [discriminate|]. rewrite collapse_cons.
  destruct (is_space c) eqn:E; cbn [startswith]; rewrite !andb_true_iff.
  - intros [A _]. apply Ascii.eqb_eq in A. subst a. discriminate Ha.
  - intros [A S]. split; [exact A | now apply IH].
Qed.

Lemma contains_collapse_bounded (n : nat) (w s : str) :
  (length s <= n)%nat -> w <> [] -> Forall (fun c => is_space c = false) w ->
  contains w (re_sub pat_spaces s) = true -> contains w s = true.
Proof.
  intros Hn Hne Hw. revert s Hn. induction n as [|n IH]; intros s Hn.
  - destruct s; [exact (fun H => H) | simpl in Hn; lia].
  - destruct s as [|c r]; [exact (fun H => H)|]. simpl in Hn.
    intros H.
    assert (C : startswith w (re_sub pat_spaces (c :: r)) = true \/
                contains w (match re_sub pat_spaces (c :: r) with
                            | [] => [] | _ :: t => t end) = true).
    { destruct (re_sub pat_spaces (c :: r)) as [|x t] eqn:R.
      - left. simpl in H. now rewrite orb_false_r in H.
      - cbn [contains] in H. now apply orb_true_iff in H. }
    destruct C as [C | C].
    + apply (startswith_collapse w (c :: r) Hw) in C. cbn [contains]. now rewrite C.
    + rewrite collapse_cons in C. cbn [contains]. apply orb_true_iff. right.
      destruct (is_space c).
      * apply IH in C.
        -- apply contains_spec in C. apply contains_spec.
           destruct C as (pre & post & Ed).
           exists (firstn (length (take_while is_space r)) r ++ pre), post.
           rewrite <- app_assoc, <- Ed, <- skipn_take_while.
           symmetry. apply firstn_skipn.
        -- pose proof (drop_while_length is_space r). lia.
      * apply IH; [lia | exact C].
Qed.

(** X16: cleaning settles after two passes: the second cleaning of any
    value leaves no URL-like token behind, so a third cleaning changes
    nothing. *)
Theorem clean_text_settles (v : py_value) :
  let once := clean_text v in
  let twice := clean_text (PyStr once) in
  has_url twice = false /\ clean_text (PyStr twice) = twice.
Proof.
  cbv zeta.
  assert (U : has_url (clean_text (PyStr (clean_text v))) = false).
  { destruct (clean_text_normalized v) as (Hgood & _ & _).
    set (y := clean_text v) in *. cbn [clean_text]. unfold clean_str.
    set (u := re_sub pat_url y).
    assert (Hu : Forall (fun c => is_clean_char c = true /\ lower_char c = c) u).
    { apply re_scan_keeps; [|exact Hgood].
      intros s repl n E. apply pat_url_some in E. destruct E as [-> _]. constructor. }
    assert (Hclean : Forall (fun c => is_clean_char c = true) u)
      by (revert Hu; apply Forall_impl; tauto).
    assert (Hlow : Forall (fun c => lower_char c = c) u)
      by (revert Hu; apply Forall_impl; tauto).
    rewrite (re_sub_no_match (pat_sigil "@") u)
      by (apply clean_no_sigil; [reflexivity | exact Hclean]).
    rewrite (re_sub_no_match (pat_sigil "#") u)
      by (apply clean_no_sigil; [reflexivity | exact Hclean]).
    rewrite (re_sub_no_match pat_punct u) by now apply clean_no_punct.
    rewrite (lower_fixed u Hlow).
    destruct (has_url (re_sub pat_spaces (strip u))) eqn:H; [|reflexivity].
    exfalso. apply has_url_spec in H. destruct H as (c & Hc & Hocc).
    apply contains_spec in Hocc.
    apply (contains_collapse_bounded (length (strip u))) in Hocc;
      [| lia | destruct (lit "http" ++ [c]) eqn:D; discriminate
       | now apply url_token_spaceless].
    apply contains_spec in Hocc.
    destruct (strip_by_middle is_space u) as (front & back & E).
    apply (occurs_inside _ front _ back) in Hocc. fold (strip u) in E. rewrite <- E in Hocc.
    assert (T : has_url u = true) by (apply has_url_spec; now exists c).
    unfold u in T. rewrite (url_removed_bounded (length y) y) in T by lia.
    discriminate T. }
  split; [exact U|].
  cbn [clean_text]. apply normalized_fixed; [apply clean_str_normalized | exact U].
Qed.
